(** * AttendanceProject: face-recognition attendance tracker

    A shallow embedding of [app/main.py] (the check-in, check-out and
    enrolment handlers, the geofence gate and the other routes) and of
    [face_vector.py] (class [FaceEmbeddingDB], the store of embeddings and
    attendance events), followed by the properties of the specification
    that concern them.

    Conventions of the embedding.
    - A Python [float] and an SQL [FLOAT] are read as a real number; the
      functions of [math] are the real functions of the same name.
    - A Python [str] is a [string], read as a sequence of characters.
    - A timestamp is a number of seconds; the application clock
      ([datetime.now()]) and the store clock ([CURRENT_TIMESTAMP]) are read
      as the same instant [now] of one request, in one time zone.
    - The psycopg2 connection is a record holding the committed tables, the
      tables as the open transaction sees them, whether that transaction
      is aborted, and a schedule of the incidents that the next round trips
      to the server will meet.
    - The face processor and the file system are outside the sources: what
      they answer to a request is an argument of the handler.
    - Python exceptions are the error results of a state monad. *)

From Stdlib Require Import List String Ascii ZArith Reals Lra Lia Bool.
From Stdlib Require Import Permutation Sorted.
Import ListNotations.

(** ** The functions of Python's [math] module, on real numbers *)

Module Math.

Local Open Scope R_scope.

(** [math.radians]. *)
Definition radians (x : R) : R := x * (PI / 180).

(** [math.atan2 y x]: the angle of the point [(x, y)], in [(-PI, PI]]. *)
Definition atan2 (y x : R) : R :=
  if Rlt_dec 0 x then atan (y / x)
  else if Rlt_dec x 0 then
    (if Rle_dec 0 y then atan (y / x) + PI else atan (y / x) - PI)
  else if Rlt_dec 0 y then PI / 2
  else if Rlt_dec y 0 then - (PI / 2)
  else 0.

(** The comparisons [x <= y] and [x > y] as Python booleans. *)
Definition leb (x y : R) : bool := if Rle_dec x y then true else false.
Definition gtb (x y : R) : bool := if Rgt_dec x y then true else false.

End Math.

(** ** [app/main.py]: the geofence *)

Module Geofence.

Local Open Scope R_scope.

(** [GEOFENCES], a dict from zone name to centre, in insertion order. *)
Definition GEOFENCES : list (string * (R * R)) :=
  [("office"%string, (16.5422428, 81.4968464))].

(** [dict.values()]. *)
Definition values {K V : Type} (d : list (K * V)) : list V := map snd d.

(** [MAX_DISTANCE], in metres. *)
Definition MAX_DISTANCE : R := 100.

(** [haversine(lat1, lon1, lat2, lon2)]. *)
Definition haversine (lat1 lon1 lat2 lon2 : R) : R :=
  let R := 6371 in
  let dlat := Math.radians (lat2 - lat1) in
  let dlon := Math.radians (lon2 - lon1) in
  let a := sin (dlat / 2) * sin (dlat / 2)
           + cos (Math.radians lat1) * cos (Math.radians lat2)
             * sin (dlon / 2) * sin (dlon / 2) in
  let c := 2 * Math.atan2 (sqrt a) (sqrt (1 - a)) in
  let distance := R * c * 1000 in
  distance.

(** The argument of the two square roots of [haversine]. *)
Definition haversine_a (lat1 lon1 lat2 lon2 : R) : R :=
  let dlat := Math.radians (lat2 - lat1) in
  let dlon := Math.radians (lon2 - lon1) in
  sin (dlat / 2) * sin (dlat / 2)
  + cos (Math.radians lat1) * cos (Math.radians lat2)
    * sin (dlon / 2) * sin (dlon / 2).

(** [any(haversine(lat, lon, g[0], g[1]) <= MAX_DISTANCE for g in zones)]. *)
Definition within_any (zones : list (R * R)) (latitude longitude : R) : bool :=
  existsb (fun geofence =>
             Math.leb (haversine latitude longitude (fst geofence) (snd geofence))
                      MAX_DISTANCE)
          zones.

(** [is_within_geofence], as both handlers compute it. *)
Definition is_within_geofence (latitude longitude : R) : bool :=
  within_any (values GEOFENCES) latitude longitude.

End Geofence.

(** ** Python exceptions and the monad of the handlers *)

Module Py.

(** The exceptions that reach the code: the three classes of psycopg2 that
    a statement, a lost connection and a closed connection raise, and any
    other [Exception] with its message. *)
Inductive exn : Type :=
| DatabaseError
| OperationalError
| InterfaceError
| Exception (msg : string).

(** [str(e)]. *)
Definition str (e : exn) : string :=
  match e with
  | DatabaseError => "database error"
  | OperationalError => "server closed the connection unexpectedly"
  | InterfaceError => "connection already closed"
  | Exception msg => msg
  end.

(** A computation on a state [S]: a value or a raised exception, and the
    state it leaves. *)
Definition M (S A : Type) : Type := S -> (A + exn) * S.

Definition ret {S A : Type} (a : A) : M S A := fun s => (inl a, s).

Definition raise {S A : Type} (e : exn) : M S A := fun s => (inr e, s).

Definition bind {S A B : Type} (m : M S A) (k : A -> M S B) : M S B :=
  fun s =>
    match m s with
    | (inl a, s') => k a s'
    | (inr e, s') => (inr e, s')
    end.

(** [try: body  except Exception as e: handler]. *)
Definition try_except {S A : Type} (body : M S A) (handler : exn -> M S A) : M S A :=
  fun s =>
    match body s with
    | (inl a, s') => (inl a, s')
    | (inr e, s') => handler e s'
    end.

(** Reading and replacing the state. *)
Definition get {S : Type} : M S S := fun s => (inl s, s).
Definition put {S : Type} (s : S) : M S unit := fun _ => (inl tt, s).

End Py.

Declare Scope py_scope.
Delimit Scope py_scope with py.
Notation "x <- m ;; k" := (Py.bind m (fun x => k))
  (at level 61, m at next level, right associativity) : py_scope.
Notation "m ;; k" := (Py.bind m (fun _ => k))
  (at level 61, right associativity) : py_scope.

(** ** [face_vector.py]: class [FaceEmbeddingDB] *)

Module FaceVector.

Import Py.
Local Open Scope py_scope.
Local Open Scope string_scope.

(** *** The two tables of [create_tables] *)

(** A row of [face_embeddings (id, name UNIQUE, embedding, created_at)]. *)
Record face_embedding : Type := {
  fe_id : Z;
  fe_name : string;
  fe_embedding : list R;
  fe_created_at : Z }.

(** A row of [attendance (id, user_name REFERENCES face_embeddings (name)
    ON DELETE CASCADE, event_type, event_time, latitude, longitude)]. *)
Record attendance_event : Type := {
  at_id : Z;
  at_user_name : string;
  at_event_type : string;
  at_event_time : Z;
  at_latitude : R;
  at_longitude : R }.

Record tables : Type := {
  face_embeddings : list face_embedding;
  attendance : list attendance_event }.

(** The tables that [CREATE TABLE IF NOT EXISTS] makes in a new database. *)
Definition empty_tables : tables :=
  {| face_embeddings := []; attendance := [] |}.

(** *** The connection [self.conn] *)

(** What a round trip to the server can meet: the server refuses what is
    sent (a constraint, a cast, a timeout), or the connection is lost. *)
Inductive incident : Type :=
| StatementError
| ConnectionLost.

(** [committed] is the durable state, [working] the state as the open
    transaction of this connection sees it. The two sequences feed the
    [SERIAL] columns and are not rolled back. [closed] is psycopg2's
    [conn.closed]. [schedule] gives, in order, what the coming round trips
    meet ([None]: nothing); when it is used up nothing goes wrong.
    [aborted] tells that the server has refused a statement of the open
    transaction (psycopg2 opens one with the first statement and leaves it
    open until [commit()] or [rollback()]): until the transaction ends the
    server refuses every statement. *)
Record connection : Type := {
  committed : tables;
  working : tables;
  face_embeddings_id_seq : Z;
  attendance_id_seq : Z;
  closed : bool;
  schedule : list (option incident);
  aborted : bool }.

Definition set_working (t : tables) (c : connection) : connection :=
  {| committed := committed c; working := t;
     face_embeddings_id_seq := face_embeddings_id_seq c;
     attendance_id_seq := attendance_id_seq c;
     closed := closed c; schedule := schedule c;
     aborted := aborted c |}.

Definition set_committed (t : tables) (c : connection) : connection :=
  {| committed := t; working := working c;
     face_embeddings_id_seq := face_embeddings_id_seq c;
     attendance_id_seq := attendance_id_seq c;
     closed := closed c; schedule := schedule c;
     aborted := aborted c |}.

Definition set_schedule (s : list (option incident)) (c : connection) : connection :=
  {| committed := committed c; working := working c;
     face_embeddings_id_seq := face_embeddings_id_seq c;
     attendance_id_seq := attendance_id_seq c;
     closed := closed c; schedule := s; aborted := aborted c |}.

Definition set_closed (b : bool) (c : connection) : connection :=
  {| committed := committed c; working := working c;
     face_embeddings_id_seq := face_embeddings_id_seq c;
     attendance_id_seq := attendance_id_seq c;
     closed := b; schedule := schedule c; aborted := aborted c |}.

Definition set_aborted (b : bool) (c : connection) : connection :=
  {| committed := committed c; working := working c;
     face_embeddings_id_seq := face_embeddings_id_seq c;
     attendance_id_seq := attendance_id_seq c;
     closed := closed c; schedule := schedule c; aborted := b |}.

(** The connection that [__init__] leaves: [connect()] then
    [create_tables()], on a database that holds [t]. *)
Definition connect (t : tables) (s : list (option incident)) : connection :=
  {| committed := t; working := t;
     face_embeddings_id_seq := 1; attendance_id_seq := 1;
     closed := false; schedule := s; aborted := false |}.

(** [self.conn.cursor()]: no round trip; refused on a closed connection. *)
Definition cursor : M connection unit :=
  fun c => if closed c then (inr InterfaceError, c) else (inl tt, c).

(** One round trip to the server. A closed connection raises
    [InterfaceError] at once; a lost connection raises [OperationalError]
    and leaves the connection closed. [refusable] tells whether the server
    can refuse what is sent: it can refuse a statement or a [COMMIT], never
    a [ROLLBACK]. *)
Definition round_trip (refusable : bool) : M connection unit :=
  fun c =>
    if closed c then (inr InterfaceError, c)
    else match schedule c with
         | [] => (inl tt, c)
         | None :: s => (inl tt, set_schedule s c)
         | Some StatementError :: s =>
             if refusable then (inr DatabaseError, set_schedule s c)
             else (inl tt, set_schedule s c)
         | Some ConnectionLost :: s =>
             (inr OperationalError, set_closed true (set_schedule s c))
         end.

(** The server refuses a statement: the open transaction is aborted. *)
Definition refuse {A : Type} : M connection A :=
  c <- get ;; put (set_aborted true c) ;; raise DatabaseError.

(** The end of the open transaction without its changes. *)
Definition end_transaction : M connection unit :=
  c <- get ;; put (set_aborted false (set_working (committed c) c)).

(** [cur.execute(statement)]: one round trip, then what the statement does
    on the server. A statement that the server refuses aborts the open
    transaction, and in an aborted transaction the server refuses every
    statement (psycopg2 raises [InFailedSqlTransaction], a
    [DatabaseError]). *)
Definition execute {A : Type} (statement : M connection A) : M connection A :=
  try_except (round_trip true)
    (fun e => match e with
              | DatabaseError => refuse
              | _ => raise e
              end) ;;
  c <- get ;;
  if aborted c then raise DatabaseError else statement.

(** A query: the rows it selects from the working state. *)
Definition query {A : Type} (q : tables -> list A) : M connection (list A) :=
  c <- get ;; ret (q (working c)).

(** A statement that writes: the new working state, and [cur.rowcount]. *)
Definition update (u : tables -> tables * Z) : M connection Z :=
  c <- get ;;
  put (set_working (fst (u (working c))) c) ;;
  ret (snd (u (working c))).

(** [self.conn.commit()]. A [COMMIT] that the server refuses ends the
    transaction without its changes. In an aborted transaction the server
    answers a [COMMIT] with a rollback, and psycopg2 raises nothing. *)
Definition commit : M connection unit :=
  try_except (round_trip true)
    (fun e => match e with
              | DatabaseError => end_transaction ;; raise e
              | _ => raise e
              end) ;;
  c <- get ;;
  if aborted c then end_transaction else put (set_committed (working c) c).

(** [self.conn.rollback()]. *)
Definition rollback : M connection unit :=
  round_trip false ;; end_transaction.

(** [nextval] of the two [SERIAL] sequences. *)
Definition nextval_face_embeddings : M connection Z :=
  c <- get ;;
  put {| committed := committed c; working := working c;
         face_embeddings_id_seq := face_embeddings_id_seq c + 1;
         attendance_id_seq := attendance_id_seq c;
         closed := closed c; schedule := schedule c;
         aborted := aborted c |} ;;
  ret (face_embeddings_id_seq c).

Definition nextval_attendance : M connection Z :=
  c <- get ;;
  put {| committed := committed c; working := working c;
         face_embeddings_id_seq := face_embeddings_id_seq c;
         attendance_id_seq := attendance_id_seq c + 1;
         closed := closed c; schedule := schedule c;
         aborted := aborted c |} ;;
  ret (attendance_id_seq c).

(** [cur.fetchone()]. *)
Definition fetchone {A : Type} (rows : list A) : option A := hd_error rows.

(** [x is not None]. *)
Definition is_not_None {A : Type} (x : option A) : bool :=
  match x with Some _ => true | None => false end.

(** [DATE(t)] and [t.date()]: the calendar day of a timestamp. *)
Definition DATE (t : Z) : Z := (t / 86400)%Z.

(** *** The SQL statements, as functions on the tables *)

(** [INSERT INTO face_embeddings (name, embedding) VALUES (new)
     ON CONFLICT (name) DO UPDATE SET embedding = EXCLUDED.embedding],
    for one row: the row that holds the name keeps its id and creation
    time and takes the new embedding; without such a row, [new] is added. *)
Fixpoint insert_on_conflict_update (new : face_embedding) (rows : list face_embedding)
  : list face_embedding :=
  match rows with
  | [] => [new]
  | row :: rest =>
      if fe_name row =? fe_name new
      then {| fe_id := fe_id row; fe_name := fe_name row;
              fe_embedding := fe_embedding new;
              fe_created_at := fe_created_at row |} :: rest
      else row :: insert_on_conflict_update new rest
  end.

Definition upsert_face_embedding (new : face_embedding) (t : tables) : tables * Z :=
  ({| face_embeddings := insert_on_conflict_update new (face_embeddings t);
      attendance := attendance t |}, 1%Z).

(** [DELETE FROM face_embeddings WHERE name = %s]; the foreign key of
    [attendance] deletes the events of the name with it. [rowcount] counts
    the rows of [face_embeddings] that went. *)
Definition delete_face_embedding (name : string) (t : tables) : tables * Z :=
  ({| face_embeddings :=
        filter (fun row => negb (fe_name row =? name)) (face_embeddings t);
      attendance :=
        filter (fun ev => negb (at_user_name ev =? name)) (attendance t) |},
   Z.of_nat (List.length (filter (fun row => fe_name row =? name) (face_embeddings t)))).

(** [INSERT INTO attendance (user_name, event_type, latitude, longitude)
     VALUES (...)]; [event_time] defaults to [CURRENT_TIMESTAMP]. *)
Definition insert_attendance (ev : attendance_event) (t : tables) : tables * Z :=
  ({| face_embeddings := face_embeddings t;
      attendance := attendance t ++ [ev] |}, 1%Z).

(** The rows of [attendance WHERE user_name = %s AND event_type = ...
    AND DATE(event_time) = %s]. *)
Definition events_on (user_name event_type : string) (today : Z)
  (events : list attendance_event) : list attendance_event :=
  filter (fun ev => (at_user_name ev =? user_name)
                    && (at_event_type ev =? event_type)
                    && (DATE (at_event_time ev) =? today)%Z)
         events.

(** [SELECT 1 FROM attendance WHERE ...]. *)
Definition select_event_on (user_name event_type : string) (today : Z) (t : tables)
  : list Z :=
  map (fun _ => 1%Z) (events_on user_name event_type today (attendance t)).

(** [ORDER BY key] (ascending): insertion of each row before the first row
    whose key is not smaller. *)
Fixpoint insert_by {A : Type} (key : A -> R) (x : A) (l : list A) : list A :=
  match l with
  | [] => [x]
  | y :: l' => if Rle_dec (key x) (key y) then x :: y :: l'
               else y :: insert_by key x l'
  end.

Definition order_by {A : Type} (key : A -> R) (l : list A) : list A :=
  fold_right (insert_by key) [] l.

(** A row of the result of [vector_search]. *)
Record search_result : Type := {
  sr_id : Z;
  sr_name : string;
  sr_embedding : list R;
  sr_created_at : Z;
  sr_similarity : R }.

(** An element of the argument of [store_multiple_embeddings]. *)
Record embedding_data : Type := {
  data_name : string;
  data_embedding : list R }.

(** Pages of [n] rows, as [execute_values] cuts its argument list. *)
Fixpoint paginate {A : Type} (fuel n : nat) (l : list A) : list (list A) :=
  match fuel with
  | O => []
  | S fuel' =>
      match l with
      | [] => []
      | _ :: _ => firstn n l :: paginate fuel' n (skipn n l)
      end
  end.

Section Methods.

(** pgvector's operator [a <=> b], the cosine distance of two vectors. *)
Variable cosine_distance : list R -> list R -> R.

(** The query of [vector_search]:
    [SELECT id, name, embedding, created_at, 1 - (embedding <=> q) AS similarity
     FROM face_embeddings WHERE 1 - (embedding <=> q) > 0.9
     ORDER BY embedding <=> q LIMIT 5]. *)
Definition select_nearest (q : list R) (t : tables) : list search_result :=
  map (fun row => {| sr_id := fe_id row; sr_name := fe_name row;
                     sr_embedding := fe_embedding row;
                     sr_created_at := fe_created_at row;
                     sr_similarity := (1 - cosine_distance (fe_embedding row) q)%R |})
      (firstn 5
         (order_by (fun row => cosine_distance (fe_embedding row) q)
            (filter (fun row =>
                       Math.gtb (1 - cosine_distance (fe_embedding row) q)%R 0.9%R)
                    (face_embeddings t)))).

(** The upsert of one row, with a fresh id. *)
Definition insert_face_embedding (now : Z) (name : string) (embedding : list R)
  : M connection Z :=
  id <- nextval_face_embeddings ;;
  update (upsert_face_embedding
            {| fe_id := id; fe_name := name; fe_embedding := embedding;
               fe_created_at := now |}).

(** The upsert of the rows of one page, in a single statement. *)
Fixpoint insert_page (now : Z) (page : list (string * list R)) : M connection unit :=
  match page with
  | [] => ret tt
  | (name, embedding) :: page' =>
      insert_face_embedding now name embedding ;; insert_page now page'
  end.

(** [execute_values(cur, sql, argslist)], with its default page size: one
    [execute] for each page of 100 rows. *)
Fixpoint execute_pages (now : Z) (pages : list (list (string * list R)))
  : M connection unit :=
  match pages with
  | [] => ret tt
  | page :: pages' => execute (insert_page now page) ;; execute_pages now pages'
  end.

Definition execute_values (now : Z) (argslist : list (string * list R))
  : M connection unit :=
  execute_pages now (paginate (List.length argslist) 100 argslist).

(** The insertion of one attendance event, with a fresh id. *)
Definition insert_attendance_event (now : Z) (user_name event_type : string)
  (latitude longitude : R) : M connection Z :=
  id <- nextval_attendance ;;
  update (insert_attendance
            {| at_id := id; at_user_name := user_name; at_event_type := event_type;
               at_event_time := now; at_latitude := latitude;
               at_longitude := longitude |}).

(** *** The methods *)

(** [store_embedding(name, embedding)]. *)
Definition store_embedding (now : Z) (name : string) (embedding : list R)
  : M connection bool :=
  try_except
    (cursor ;;
     execute (insert_face_embedding now name embedding) ;;
     commit ;;
     ret true)
    (fun e => rollback ;; ret false).

(** [store_multiple_embeddings(embeddings_data)]. *)
Definition store_multiple_embeddings (now : Z)
  (embeddings_data : list embedding_data) : M connection bool :=
  try_except
    (cursor ;;
     let embeddings_values :=
       map (fun data => (data_name data, data_embedding data)) embeddings_data in
     execute_values now embeddings_values ;;
     commit ;;
     ret true)
    (fun e => rollback ;; ret false).

(** [has_checked_in_today(user_name)]. *)
Definition has_checked_in_today (now : Z) (user_name : string) : M connection bool :=
  let today := DATE now in
  try_except
    (cursor ;;
     rows <- execute (query (select_event_on user_name "checkin" today)) ;;
     ret (is_not_None (fetchone rows)))
    (fun e => ret false).

(** [has_checked_out_today(user_name)]. *)
Definition has_checked_out_today (now : Z) (user_name : string) : M connection bool :=
  let today := DATE now in
  try_except
    (cursor ;;
     rows <- execute (query (select_event_on user_name "checkout" today)) ;;
     ret (is_not_None (fetchone rows)))
    (fun e => ret false).

(** [delete_user(name)]. *)
Definition delete_user (name : string) : M connection bool :=
  try_except
    (cursor ;;
     rowcount <- execute (update (delete_face_embedding name)) ;;
     commit ;;
     if (rowcount >? 0)%Z then ret true else ret false)
    (fun e => rollback ;; ret false).

(** [vector_search(encoding)]. *)
Definition vector_search (encoding : list R) : M connection (list search_result) :=
  try_except
    (cursor ;;
     results <- execute (query (select_nearest encoding)) ;;
     ret results)
    (fun e => ret []).

(** [log_attendance(user_name, event_type, latitude, longitude)]. *)
Definition log_attendance (now : Z) (user_name event_type : string)
  (latitude longitude : R) : M connection bool :=
  try_except
    (cursor ;;
     execute (insert_attendance_event now user_name event_type latitude longitude) ;;
     commit ;;
     ret true)
    (fun e => rollback ;; ret false).

End Methods.

(** *** The methods that report *)

(** [ORDER BY key DESC], for a key that is a timestamp or a day: insertion
    of each row before the first row whose key is not greater. *)
Fixpoint insert_desc {A : Type} (key : A -> Z) (x : A) (l : list A) : list A :=
  match l with
  | [] => [x]
  | y :: l' => if (key y <=? key x)%Z then x :: y :: l'
               else y :: insert_desc key x l'
  end.

Definition order_by_desc {A : Type} (key : A -> Z) (l : list A) : list A :=
  fold_right (insert_desc key) [] l.

(** The aggregate [MAX] of SQL: [NULL]s are skipped, and the maximum of no
    value is [NULL]. *)
Definition sql_max (values : list (option Z)) : option Z :=
  fold_right (fun v acc =>
                match v, acc with
                | Some t, Some m => Some (Z.max t m)
                | Some t, None => Some t
                | None, _ => acc
                end)
             None values.

(** [CASE WHEN event_type = ... THEN event_time END]. *)
Definition case_when (event_type : string) (ev : attendance_event) : option Z :=
  if at_event_type ev =? event_type then Some (at_event_time ev) else None.

(** The scalar subquery of [retrieve_all_data]:
    [SELECT event_time FROM attendance
     WHERE user_name = fe.name AND event_type = ...
     ORDER BY event_time DESC LIMIT 1]; [NULL] without a row. *)
Definition latest_event (name event_type : string) (t : tables) : option Z :=
  option_map at_event_time
    (hd_error
       (firstn 1
          (order_by_desc at_event_time
             (filter (fun ev => (at_user_name ev =? name)
                                && (at_event_type ev =? event_type))
                     (attendance t))))).

(** An element of the result of [retrieve_all_data]. *)
Record identity_summary : Type := {
  su_id : Z;
  su_name : string;
  su_embedding : list R;
  su_created_at : Z;
  su_latest_checkin : option Z;
  su_latest_checkout : option Z }.

(** The query of [retrieve_all_data]. *)
Definition select_all_data (t : tables) : list identity_summary :=
  map (fun fe => {| su_id := fe_id fe; su_name := fe_name fe;
                    su_embedding := fe_embedding fe;
                    su_created_at := fe_created_at fe;
                    su_latest_checkin := latest_event (fe_name fe) "checkin" t;
                    su_latest_checkout := latest_event (fe_name fe) "checkout" t |})
      (face_embeddings t).

(** [retrieve_all_data()]. *)
Definition retrieve_all_data : M connection (list identity_summary) :=
  try_except
    (cursor ;;
     results <- execute (query select_all_data) ;;
     ret results)
    (fun e => ret []).

(** An element of the result of [get_user_attendance_report]. *)
Record daily_attendance : Type := {
  attendance_date : Z;
  checkin_time : option Z;
  checkout_time : option Z }.

(** [GROUP BY DATE(event_time)]: the days of the events, each with the
    events of the day. *)
Definition group_by_date (events : list attendance_event)
  : list (Z * list attendance_event) :=
  map (fun day => (day, filter (fun ev => (DATE (at_event_time ev) =? day)%Z) events))
      (nodup Z.eq_dec (map (fun ev => DATE (at_event_time ev)) events)).

(** The query of [get_user_attendance_report]: the common table expression
    [daily_attendance], in descending order of the day. *)
Definition select_daily_attendance (user_name : string) (t : tables)
  : list daily_attendance :=
  order_by_desc attendance_date
    (map (fun group =>
            {| attendance_date := fst group;
               checkin_time := sql_max (map (case_when "checkin") (snd group));
               checkout_time := sql_max (map (case_when "checkout") (snd group)) |})
         (group_by_date
            (filter (fun ev => at_user_name ev =? user_name) (attendance t)))).

(** [get_user_attendance_report(user_name)]. *)
Definition get_user_attendance_report (user_name : string)
  : M connection (list daily_attendance) :=
  try_except
    (cursor ;;
     results <- execute (query (select_daily_attendance user_name)) ;;
     ret results)
    (fun e => ret []).



(** An element of the result of [retrieve_attendance]. *)
Record attendance_record : Type := {
  ar_event_type : string;
  ar_event_time : Z }.

(** [SELECT event_type, event_time FROM attendance WHERE user_name = %s
     ORDER BY event_time DESC]. *)
Definition select_attendance (user_name : string) (t : tables)
  : list attendance_record :=
  map (fun ev => {| ar_event_type := at_event_type ev;
                    ar_event_time := at_event_time ev |})
      (order_by_desc at_event_time
         (filter (fun ev => at_user_name ev =? user_name) (attendance t))).

(** [retrieve_attendance(user_name)]. *)
Definition retrieve_attendance (user_name : string)
  : M connection (list attendance_record) :=
  try_except
    (cursor ;;
     attendance_records <- execute (query (select_attendance user_name)) ;;
     ret attendance_records)
    (fun e => ret []).

End FaceVector.

(** ** [app/main.py]: the handlers *)

Module Main.

Import Py.
Import FaceVector.
Local Open Scope py_scope.
Local Open Scope string_scope.

(** *** Strings *)

(** [c.isspace()], for the characters below 256. *)
Definition isspace (c : ascii) : bool :=
  let n := nat_of_ascii c in
  ((9 <=? n) && (n <=? 13) || (28 <=? n) && (n <=? 32)
   || (n =? 133) || (n =? 160))%nat.

Fixpoint lstrip (s : string) : string :=
  match s with
  | EmptyString => EmptyString
  | String c s' => if isspace c then lstrip s' else s
  end.

Definition reverse (s : string) : string :=
  string_of_list_ascii (rev (list_ascii_of_string s)).

Definition rstrip (s : string) : string := reverse (lstrip (reverse s)).

(** [s.strip()]. *)
Definition strip (s : string) : string := rstrip (lstrip s).

(** *** The collaborators of the handlers *)

(** An element of the list that the face processor returns. *)
Record detected_face : Type := { face_name : string }.

(** What a handler does outside itself. *)
Inductive effect : Type :=
| FaceProcessing
| StoreAccess
| FileWrite.

(** The state a handler runs in: the global [db_handler], and the calls
    made so far to the face processor, to the store and to the file
    system. *)
Record world : Type := {
  db_handler : connection;
  effects : list effect }.

(** A call of a method of [db_handler]. *)
Definition call_db {A : Type} (method : M connection A) : M world A :=
  fun w =>
    let (r, c) := method (db_handler w) in
    (r, {| db_handler := c; effects := effects w ++ [StoreAccess] |}).

(** A call of the face processor ([face_processor.py] is not part of the
    sources): its answer for the uploaded photo is the argument. *)
Definition call_face_processor {A : Type} (answer : A + exn) : M world A :=
  fun w =>
    (answer, {| db_handler := db_handler w;
                effects := effects w ++ [FaceProcessing] |}).

(** The file operations of [enroll_photo], from [os.makedirs] to
    [f.write]: the directory of the employee is made and the uploaded photo
    is written there. What they give for the name and the upload of the
    request (nothing, or the exception that one of them raises: a name such
    as ["a/b"] names a file in a directory that does not exist) is the
    argument. *)
Definition save_photo (outcome : unit + exn) : M world unit :=
  fun w =>
    (outcome, {| db_handler := db_handler w;
                 effects := effects w ++ [FileWrite] |}).

(** [face_processor.process_video_frame(cv2.imread(photo))]. *)
Definition process_video_frame (answer : list detected_face + exn)
  : M world (list detected_face) :=
  call_face_processor answer.

(** [face_processor._process_employee_image(photo_path, name)]. *)
Definition _process_employee_image (answer : option (list R) + exn)
  : M world (option (list R)) :=
  call_face_processor answer.

(** *** The answers of the handlers *)

(** [{"success": ..., "message": ...}]. *)
Record response : Type := {
  success : bool;
  message : string }.

(** [{"status_code": ..., "message": ...}] or [{"message": ...}]. *)
Record enroll_response : Type := {
  status_code : option Z;
  enroll_message : string }.

(** The default value of a parameter that the request leaves out. *)
Definition default {A : Type} (d : A) (x : option A) : A :=
  match x with Some v => v | None => d end.

Section Handlers.

Variable cosine_distance : list R -> list R -> R.

(** [enroll_photo(name, photo)]. [saved] stands for what the file system
    answers when the photo is saved, [photo] for what the face processor
    finds in the saved photo. *)
Definition enroll_photo (now : Z) (name : string) (saved : unit + exn)
  (photo : option (list R) + exn) : M world enroll_response :=
  try_except
    (if (name =? "") || (strip name =? "")
     then ret {| status_code := Some 400%Z;
                 enroll_message := "Name cannot be empty" |}
     else
       let name := strip name in
       save_photo saved ;;
       encoding <- _process_employee_image photo ;;
       match encoding with
       | None => ret {| status_code := Some 400%Z;
                        enroll_message := "Failed to generate embedding." |}
       | Some encoding =>
           similar_embeddings <- call_db (vector_search cosine_distance encoding) ;;
           match similar_embeddings with
           | _ :: _ =>
               ret {| status_code := Some 400%Z;
                      enroll_message := "User with similar face already exists." |}
           | [] =>
               stored <- call_db (store_embedding now name encoding) ;;
               if stored
               then ret {| status_code := None;
                           enroll_message :=
                             "Embedding stored successfully for " ++ name ++ "." |}
               else ret {| status_code := Some 400%Z;
                           enroll_message := "Failed to store embedding." |}
           end
       end)
    (fun e => ret {| status_code := Some 500%Z;
                     enroll_message := "Error: " ++ str e |}).

End Handlers.

(** [process_checkin(photo, latitude, longitude)]. [photo] stands for the
    uploaded file through what the face processor finds in it; the
    temporary file is left out. *)
Definition process_checkin (now : Z) (photo : list detected_face + exn)
  (latitude longitude : option R) : M world response :=
  let latitude := default 16.5422428%R latitude in
  let longitude := default 81.4968464%R longitude in
  try_except
    (if negb (Geofence.is_within_geofence latitude longitude)
     then ret {| success := false;
                 message := "Check-in failed. You are not within the allowed area." |}
     else
       detected_faces <- process_video_frame photo ;;
       match detected_faces with
       | face :: _ =>
           if negb (face_name face =? "Unknown")
           then
             let user_name := face_name face in
             already <- call_db (has_checked_in_today now user_name) ;;
             if already
             then ret {| success := false;
                         message := "You have already checked in today." |}
             else
               call_db (log_attendance now user_name "checkin" latitude longitude) ;;
               ret {| success := true; message := "Check-in successful!" |}
           else ret {| success := false; message := "Face not recognized." |}
       | [] => ret {| success := false; message := "Face not recognized." |}
       end)
    (fun e => ret {| success := false; message := str e |}).

(** [process_checkout(photo, latitude, longitude)], with [photo] as in
    [process_checkin]. *)
Definition process_checkout (now : Z) (photo : list detected_face + exn)
  (latitude longitude : option R) : M world response :=
  let latitude := default 16.5422428%R latitude in
  let longitude := default 81.4968464%R longitude in
  try_except
    (if negb (Geofence.is_within_geofence latitude longitude)
     then ret {| success := false;
                 message := "Check-out failed. You are not within the allowed area." |}
     else
       detected_faces <- process_video_frame photo ;;
       match detected_faces with
       | face :: _ =>
           if negb (face_name face =? "Unknown")
           then
             let user_name := face_name face in
             already <- call_db (has_checked_out_today now user_name) ;;
             if already
             then ret {| success := false;
                         message := "You have already checked out today." |}
             else
               call_db (log_attendance now user_name "checkout" latitude longitude) ;;
               ret {| success := true; message := "Check-out successful!" |}
           else ret {| success := false; message := "Face not recognized." |}
       | [] => ret {| success := false; message := "Face not recognized." |}
       end)
    (fun e => ret {| success := false; message := str e |}).

End Main.

(** ** [app/main.py]: the other routes *)

Module Routes.

Import Py.
Import Main.
Local Open Scope py_scope.
Local Open Scope string_scope.

(** An element of ["detections"] in the answer of [process_video]. *)
Record detection : Type := {
  frame : Z;
  detected_faces : list detected_face }.

(** [{"total_frames": ..., "processed_frames": ..., "detections": ...}]. *)
Record video_summary : Type := {
  total_frames : Z;
  processed_frames : nat;
  detections : list detection }.

(** The loop of [process_video]. The video is the list of its frames, each
    standing for what the face processor finds in it; the end of the list
    is the [cap.read()] that returns no frame. *)
Fixpoint read_frames (video : list (list detected_face + exn)) (frame_count : Z)
  (results : list detection) : M world (Z * list detection) :=
  match video with
  | [] => ret (frame_count, results)
  | frame :: video' =>
      results <-
        (if (frame_count mod 5 =? 0)%Z
         then
           detected_faces <- process_video_frame frame ;;
           match detected_faces with
           | _ :: _ =>
               ret (results ++ [ {| frame := frame_count;
                                    detected_faces := detected_faces |} ])%list
           | [] => ret results
           end
         else ret results) ;;
      read_frames video' (frame_count + 1)%Z results
  end.

(** [process_video(video)]; the temporary file is left out. *)
Definition process_video (video : list (list detected_face + exn))
  : M world video_summary :=
  out <- read_frames video 0%Z [] ;;
  ret {| total_frames := fst out;
         processed_frames := List.length (snd out);
         detections := snd out |}.

(** [find()], the route [/getall]. *)
Definition find : M world (list FaceVector.identity_summary) :=
  call_db FaceVector.retrieve_all_data.

(** [{"status": ..., "message": ...}]. *)
Record status_response : Type := {
  status : string;
  status_message : string }.

(** [delete_user(name)], the route [/delete-user/{name}]. *)
Definition delete_user (name : string) : M world status_response :=
  try_except
    (success <- call_db (FaceVector.delete_user name) ;;
     if success
     then ret {| status := "success";
                 status_message := "User '" ++ name ++ "' deleted successfully" |}
     else ret {| status := "error";
                 status_message := "User '" ++ name ++ "' not found" |})
    (fun e => ret {| status := "error";
                     status_message := "Error deleting user: " ++ str e |}).

(** [get_attendance(user_name)]. *)
Definition get_attendance (user_name : string)
  : M world (list FaceVector.attendance_record) :=
  call_db (FaceVector.retrieve_attendance user_name).

(** The answer of [get_user_report]:
    [{"status": "success", "user_name": ..., "attendance_records": ...}] or
    [{"status": "error", "message": ...}]. *)
Inductive report_response : Type :=
| ReportSuccess (user_name : string)
    (attendance_records : list FaceVector.daily_attendance)
| ReportError (message : string).

(** [get_user_report(user_name)]. *)
Definition get_user_report (user_name : string) : M world report_response :=
  try_except
    (report <- call_db (FaceVector.get_user_attendance_report user_name) ;;
     match report with
     | _ :: _ => ret (ReportSuccess user_name report)
     | [] => ret (ReportError
                    ("No attendance records found for user '" ++ user_name ++ "'"))
     end)
    (fun e => ret (ReportError ("Error retrieving attendance report: " ++ str e))).

End Routes.

(** ** The vocabulary of the properties *)

Module Props.

Import Py.
Import FaceVector.
Import Main.
Local Open Scope string_scope.

(** A connection that is open, whose transaction is not aborted, and whose
    coming round trips meet nothing. *)
Definition healthy (c : connection) : Prop :=
  (closed c = false /\ aborted c = false)
  /\ Forall (fun i => i = None) (schedule c).

(** A connection on which the next statement raises: it is closed, its
    transaction is aborted, or the next round trip meets an incident. *)
Definition query_raises (c : connection) : Prop :=
  closed c = true \/ aborted c = true \/ exists i s, schedule c = Some i :: s.


(** The connection after a round trip that met nothing. *)
Definition after_round_trip (c : connection) : connection :=
  set_schedule (tl (schedule c)) c.

(** A computation that keeps an invariant of the state, whatever it
    returns or raises. *)
Definition preserves {S A : Type} (I : S -> Prop) (m : M S A) : Prop :=
  forall s, I s -> I (snd (m s)).

(** The attendance ledger and the identities, as the handlers read them. *)
Definition ledger (w : world) : list attendance_event :=
  attendance (working (db_handler w)).

Definition identities (c : connection) : list face_embedding :=
  face_embeddings (working c).

(** The rows of a table of identities that carry a name. *)
Definition rows_named (name : string) (rows : list face_embedding)
  : list face_embedding :=
  filter (fun row => fe_name row =? name) rows.

(** At most one row for each name, in the working state and in the
    committed state. *)
Definition unique_names (rows : list face_embedding) : Prop :=
  forall name, (List.length (rows_named name rows) <= 1)%nat.

Definition names_unique (c : connection) : Prop :=
  unique_names (face_embeddings (working c))
  /\ unique_names (face_embeddings (committed c)).

(** The events of a user in a list of events. *)
Definition events_of (user_name : string) (events : list attendance_event)
  : list attendance_event :=
  filter (fun ev => at_user_name ev =? user_name) events.

(** A row with another embedding. *)
Definition with_embedding (embedding : list R) (row : face_embedding)
  : face_embedding :=
  {| fe_id := fe_id row; fe_name := fe_name row; fe_embedding := embedding;
     fe_created_at := fe_created_at row |}.

(** An enrolment request: the time it arrives, its name, what saving its
    photo gives, and the answer of the face processor for its photo. *)
Record enrollment : Type := {
  en_now : Z;
  en_name : string;
  en_saved : unit + exn;
  en_photo : option (list R) + exn }.

(** The world after a sequence of enrolment requests. *)
Fixpoint enroll_all (cosine_distance : list R -> list R -> R)
  (requests : list enrollment) (w : world) : world :=
  match requests with
  | [] => w
  | r :: requests' =>
      enroll_all cosine_distance requests'
        (snd (enroll_photo cosine_distance (en_now r) (en_name r) (en_saved r)
                (en_photo r) w))
  end.

(** The answers of the check-in and check-out handlers. *)
Definition checkin_ok : response :=
  {| success := true; message := "Check-in successful!" |}.
Definition checkin_outside : response :=
  {| success := false;
     message := "Check-in failed. You are not within the allowed area." |}.
Definition checkout_outside : response :=
  {| success := false;
     message := "Check-out failed. You are not within the allowed area." |}.


(** The order of two rows by a key. *)
Definition key_le {A : Type} (key : A -> R) (x y : A) : Prop :=
  (key x <= key y)%R.

(** The latest of a list of times: [None] for the empty list. *)
Definition latest_of (times : list Z) (r : option Z) : Prop :=
  match r with
  | Some t => In t times /\ forall t', In t' times -> (t' <= t)%Z
  | None => times = []
  end.

(** The descending orders of two rows by a key. *)
Definition key_ge {A : Type} (key : A -> Z) (x y : A) : Prop := (key y <= key x)%Z.
Definition key_gt {A : Type} (key : A -> Z) (x y : A) : Prop := (key y < key x)%Z.

(** The embedding that a table of identities holds for a name. *)
Definition embedding_of (name : string) (rows : list face_embedding)
  : option (list R) :=
  option_map fe_embedding (find (fun row => fe_name row =? name) rows).

(** What a list of upserts, done in turn, leaves for a name. *)
Definition assigned (name : string) (values : list (string * list R))
  (before : option (list R)) : option (list R) :=
  fold_left (fun acc value => if fst value =? name then Some (snd value) else acc)
            values before.

(** The detections [new] are those of the frames of [video], numbered from
    [n], whose number is a multiple of 5 and in which the face processor
    finds a face. *)
Definition sampled (video : list (list detected_face + exn)) (n : Z)
  (new : list Routes.detection) : Prop :=
  (Forall (fun d =>
            n <= Routes.frame d < n + Z.of_nat (List.length video)
            /\ Routes.frame d mod 5 = 0
            /\ Routes.detected_faces d <> []
            /\ nth_error video (Z.to_nat (Routes.frame d - n))
               = Some (inl (Routes.detected_faces d)))
         new
  /\ StronglySorted (fun d1 d2 => Routes.frame d1 < Routes.frame d2) new
  /\ (forall k faces,
        (n + Z.of_nat k) mod 5 = 0 ->
        nth_error video k = Some (inl faces) -> faces <> [] ->
        In {| Routes.frame := n + Z.of_nat k; Routes.detected_faces := faces |} new)
  /\ Z.of_nat (List.length new)
     <= (n + Z.of_nat (List.length video) + 4) / 5 - (n + 4) / 5)%Z.

(** *** Data of the examples *)

Definition office_latitude : R := 16.5422428%R.
Definition office_longitude : R := 81.4968464%R.

(** A point a quarter of a great circle south of the office. *)
Definition far_latitude : R := (-73.4577572)%R.

(** A world on a new database, with a schedule of incidents. *)
Definition new_world (s : list (option incident)) : world :=
  {| db_handler := connect empty_tables s; effects := [] |}.

Definition alice : detected_face := {| face_name := "alice" |}.

Definition alice_row (embedding : list R) : face_embedding :=
  {| fe_id := 1; fe_name := "alice"; fe_embedding := embedding;
     fe_created_at := 0 |}.

(** A database in which alice is enrolled and has checked in at time 0. *)
Definition alice_tables (embedding : list R) : tables :=
  {| face_embeddings := [alice_row embedding];
     attendance := [ {| at_id := 1; at_user_name := "alice";
                        at_event_type := "checkin"; at_event_time := 0;
                        at_latitude := office_latitude;
                        at_longitude := office_longitude |} ] |}.

Definition alice_world (s : list (option incident)) : world :=
  {| db_handler := connect (alice_tables [1%R; 0%R]) s; effects := [] |}.

(** A distance for which no two faces are alike. *)
Definition all_unlike (a b : list R) : R := 1%R.

(** A distance for which any two faces are alike. *)
Definition all_alike (a b : list R) : R := 0%R.

(** The world of alice once the connection is closed. *)
Definition closed_world : world :=
  {| db_handler := set_closed true (connect (alice_tables [1%R; 0%R]) []);
     effects := [] |}.

(** A batch for [store_multiple_embeddings]. *)
Definition bob_and_carol : list embedding_data :=
  [ {| data_name := "bob"; data_embedding := [0%R; 1%R] |};
    {| data_name := "carol"; data_embedding := [1%R; 1%R] |} ].

End Props.

(** * Tactics *)

(** Running the code of a method on a connection given by its fields. *)
Ltac run_connection :=
  cbv beta iota zeta delta
    [FaceVector.store_embedding FaceVector.store_multiple_embeddings
     FaceVector.log_attendance FaceVector.delete_user FaceVector.vector_search
     FaceVector.has_checked_in_today FaceVector.has_checked_out_today
     FaceVector.insert_face_embedding FaceVector.insert_attendance_event
     Py.try_except Py.bind Py.ret Py.raise Py.get Py.put
     FaceVector.cursor FaceVector.execute FaceVector.query FaceVector.update
     FaceVector.commit FaceVector.rollback FaceVector.round_trip
     FaceVector.refuse FaceVector.end_transaction
     FaceVector.nextval_face_embeddings FaceVector.nextval_attendance
     FaceVector.set_working FaceVector.set_committed FaceVector.set_schedule
     FaceVector.set_closed FaceVector.set_aborted FaceVector.closed
     FaceVector.schedule FaceVector.aborted
     FaceVector.working FaceVector.committed
     FaceVector.face_embeddings_id_seq FaceVector.attendance_id_seq fst snd].

Ltac schedule_cases :=
  repeat (run_connection;
          try match goal with
            | |- context [match ?s with [] => _ | _ :: _ => _ end] =>
                is_var s; destruct s as [ | [[ | ] | ] ?]
            end);
  run_connection.

Ltac connection_cases c :=
  destruct c as [?cm ?wk ?s1 ?s2 [ | ] ?sch [ | ]]; schedule_cases.

(** Running the code of a handler up to its calls of the store. *)
Ltac run_handler :=
  unfold Main.process_checkin, Main.process_checkout, Main.enroll_photo,
    Main.default, Main.process_video_frame, Main._process_employee_image,
    Main.save_photo, Main.call_face_processor, Main.call_db,
    Py.try_except, Py.bind, Py.ret, Py.raise;
  cbn [Main.db_handler Main.effects fst snd negb].

(** * Properties *)

(** ** The geofence *)

Section GeofenceFacts.

Import Geofence.
Local Open Scope R_scope.

Lemma radians_0 : Math.radians 0 = 0.
Proof. unfold Math.radians. lra. Qed.

Lemma leb_true_iff (x y : R) : Math.leb x y = true <-> x <= y.
Proof.
  unfold Math.leb. destruct (Rle_dec x y); split; intros; auto; discriminate.
Qed.

Lemma leb_false_iff (x y : R) : Math.leb x y = false <-> x > y.
Proof.
  unfold Math.leb. destruct (Rle_dec x y); split; intros; try discriminate;
    try reflexivity; lra.
Qed.

Lemma gtb_true_iff (x y : R) : Math.gtb x y = true <-> x > y.
Proof.
  unfold Math.gtb. destruct (Rgt_dec x y); split; intros; auto; discriminate.
Qed.

(** On a point of the first quadrant [atan2] is the arc tangent of the
    quotient. *)
Lemma atan2_pos (y x : R) : 0 < x -> Math.atan2 y x = atan (y / x).
Proof.
  intros Hx. unfold Math.atan2. destruct (Rlt_dec 0 x); [reflexivity | lra].
Qed.

Lemma atan2_0_1 : Math.atan2 0 1 = 0.
Proof.
  rewrite atan2_pos by lra. replace (0 / 1) with 0 by lra. apply atan_0.
Qed.

Lemma haversine_self (lat lon : R) : haversine lat lon lat lon = 0.
Proof.
  unfold haversine. cbv zeta.
  replace (lat - lat) with 0 by lra. replace (lon - lon) with 0 by lra.
  rewrite radians_0. replace (0 / 2) with 0 by lra. rewrite sin_0.
  replace (0 * 0 + cos (Math.radians lat) * cos (Math.radians lat) * 0 * 0)
    with 0 by lra.
  rewrite sqrt_0. replace (1 - 0) with 1 by lra.
  rewrite sqrt_1, atan2_0_1. lra.
Qed.

Lemma haversine_sym (lat1 lon1 lat2 lon2 : R) :
  haversine lat1 lon1 lat2 lon2 = haversine lat2 lon2 lat1 lon1.
Proof.
  unfold haversine, Math.radians. cbv zeta.
  replace ((lat1 - lat2) * (PI / 180) / 2)
    with (- ((lat2 - lat1) * (PI / 180) / 2)) by lra.
  replace ((lon1 - lon2) * (PI / 180) / 2)
    with (- ((lon2 - lon1) * (PI / 180) / 2)) by lra.
  rewrite !sin_neg.
  set (s := sin ((lat2 - lat1) * (PI / 180) / 2)).
  set (t := sin ((lon2 - lon1) * (PI / 180) / 2)).
  set (c1 := cos (lat1 * (PI / 180))). set (c2 := cos (lat2 * (PI / 180))).
  replace (- s * - s + c2 * c1 * - t * - t) with (s * s + c1 * c2 * t * t) by ring.
  reflexivity.
Qed.

(** Ninety degrees of latitude apart on one meridian: a quarter of a great
    circle. *)
Lemma haversine_quarter (lat lon : R) :
  haversine (lat - 90) lon lat lon = 6371 * (2 * (PI / 4)) * 1000.
Proof.
  unfold haversine. cbv zeta.
  replace (lat - (lat - 90)) with 90 by lra. replace (lon - lon) with 0 by lra.
  rewrite radians_0. replace (0 / 2) with 0 by lra. rewrite sin_0.
  replace (Math.radians 90 / 2) with (PI / 4) by (unfold Math.radians; lra).
  rewrite sin_PI4.
  assert (Hs : 0 < sqrt 2) by (apply sqrt_lt_R0; lra).
  assert (Hq : sqrt 2 * sqrt 2 = 2) by (apply sqrt_sqrt; lra).
  set (k := cos (Math.radians (lat - 90)) * cos (Math.radians lat)).
  replace (1 / sqrt 2 * (1 / sqrt 2) + k * 0 * 0) with (1 / (sqrt 2 * sqrt 2))
    by (field; lra).
  rewrite Hq.
  replace (1 - 1 / 2) with (1 / 2) by lra.
  assert (Hh : 0 < sqrt (1 / 2)) by (apply sqrt_lt_R0; lra).
  rewrite atan2_pos by exact Hh.
  replace (sqrt (1 / 2) / sqrt (1 / 2)) with 1 by (field; lra).
  rewrite atan_1. reflexivity.
Qed.

Lemma within_any_iff (zones : list (R * R)) (latitude longitude : R) :
  within_any zones latitude longitude = true <->
  exists zone, In zone zones /\
               haversine latitude longitude (fst zone) (snd zone) <= MAX_DISTANCE.
Proof.
  unfold within_any. rewrite existsb_exists.
  split; intros [zone [Hin H]]; exists zone; split; auto; apply leb_true_iff; auto.
Qed.

(** The zones are joined: a point passes for two lists of zones when it
    passes for one of them. *)
Lemma within_any_app (zones1 zones2 : list (R * R)) (latitude longitude : R) :
  within_any (zones1 ++ zones2) latitude longitude =
  within_any zones1 latitude longitude || within_any zones2 latitude longitude.
Proof. unfold within_any. apply existsb_app. Qed.

Lemma within_any_false_iff (zones : list (R * R)) (latitude longitude : R) :
  within_any zones latitude longitude = false <->
  forall zone, In zone zones ->
               haversine latitude longitude (fst zone) (snd zone) > MAX_DISTANCE.
Proof.
  split.
  - intros H zone Hin.
    destruct (Rle_dec (haversine latitude longitude (fst zone) (snd zone)) MAX_DISTANCE)
      as [Hle | Hgt]; [ | lra ].
    assert (Ht : within_any zones latitude longitude = true)
      by (apply within_any_iff; exists zone; auto).
    rewrite H in Ht. discriminate.
  - intros H. destruct (within_any zones latitude longitude) eqn:E; auto.
    apply within_any_iff in E. destruct E as [zone [Hin Hle]].
    specialize (H zone Hin). lra.
Qed.

Lemma office_within_geofence :
  is_within_geofence 16.5422428 81.4968464 = true.
Proof.
  apply within_any_iff. exists (16.5422428, 81.4968464). split.
  - simpl. auto.
  - simpl fst; simpl snd. rewrite haversine_self. unfold MAX_DISTANCE. lra.
Qed.

Lemma far_point_outside :
  forall zone, In zone (values GEOFENCES) ->
    haversine Props.far_latitude Props.office_longitude (fst zone) (snd zone)
    > MAX_DISTANCE.
Proof.
  intros zone [<- | []]. simpl fst; simpl snd.
  unfold Props.far_latitude, Props.office_longitude.
  replace (-73.4577572) with (16.5422428 - 90) by lra.
  rewrite haversine_quarter. unfold MAX_DISTANCE.
  pose proof PI2_1. lra.
Qed.

Lemma sin_half_sqr (d : R) : sin (d / 2) * sin (d / 2) = (1 - cos d) / 2.
Proof.
  pose proof (cos_2a_sin (d / 2)) as H.
  replace (2 * (d / 2)) with d in H by lra. lra.
Qed.

(** [math.sqrt] is applied inside its domain: both arguments of the square
    roots of [haversine] lie between 0 and 1. *)
Lemma haversine_a_bounds (lat1 lon1 lat2 lon2 : R) :
  0 <= haversine_a lat1 lon1 lat2 lon2 <= 1.
Proof.
  unfold haversine_a. cbv zeta.
  rewrite (Rmult_assoc _ (sin (Math.radians (lon2 - lon1) / 2))).
  rewrite !sin_half_sqr.
  replace (Math.radians (lat2 - lat1))
    with (Math.radians lat2 - Math.radians lat1) by (unfold Math.radians; lra).
  rewrite cos_minus.
  set (x := Math.radians lat1). set (y := Math.radians lat2).
  set (t := cos (Math.radians (lon2 - lon1))).
  pose proof (sin2_cos2 x) as Hx. pose proof (sin2_cos2 y) as Hy.
  unfold Rsqr in Hx, Hy.
  pose proof (COS_bound (Math.radians (lon2 - lon1))) as [Ht1 Ht2]. fold t in Ht1, Ht2.
  set (p := sin x) in *. set (q := cos x) in *.
  set (u := sin y) in *. set (v := cos y) in *.
  assert (H1 : 2 * (1 - (p * u + t * q * v))
               = (p - u) * (p - u) + (q - t * v) * (q - t * v) + (1 - t * t) * (v * v)).
  { transitivity ((p * p + q * q) + (u * u + v * v) - 2 * (p * u + t * q * v));
      [rewrite Hx, Hy | ]; ring. }
  assert (H2 : 2 * (1 + (p * u + t * q * v))
               = (p + u) * (p + u) + (q + t * v) * (q + t * v) + (1 - t * t) * (v * v)).
  { transitivity ((p * p + q * q) + (u * u + v * v) + 2 * (p * u + t * q * v));
      [rewrite Hx, Hy | ]; ring. }
  clearbody p q u v t.
  assert (Ht : 0 <= (1 - t * t) * (v * v)).
  { apply Rmult_le_pos; [nra | apply (Rle_0_sqr v)]. }
  pose proof (Rle_0_sqr (p - u)) as Hs1. pose proof (Rle_0_sqr (q - t * v)) as Hs2.
  pose proof (Rle_0_sqr (p + u)) as Hs3. pose proof (Rle_0_sqr (q + t * v)) as Hs4.
  unfold Rsqr in Hs1, Hs2, Hs3, Hs4.
  split; nra.
Qed.

Lemma haversine_unfold (lat1 lon1 lat2 lon2 : R) :
  haversine lat1 lon1 lat2 lon2
  = 6371 * (2 * Math.atan2 (sqrt (haversine_a lat1 lon1 lat2 lon2))
                           (sqrt (1 - haversine_a lat1 lon1 lat2 lon2))) * 1000.
Proof. reflexivity. Qed.

End GeofenceFacts.

(** ** The connection *)

Section ConnectionFacts.

Import Py FaceVector Props.
Local Open Scope py_scope.

Lemma healthy_after_round_trip (c : connection) :
  healthy c -> healthy (after_round_trip c).
Proof.
  intros [Hc Hs]. split; [exact Hc | ].
  unfold after_round_trip. simpl. destruct (schedule c); simpl; auto.
  inversion Hs; auto.
Qed.

Lemma round_trip_healthy (b : bool) (c : connection) :
  healthy c -> round_trip b c = (inl tt, after_round_trip c).
Proof.
  intros [[Hc Ha] Hs]. destruct c as [cm wk s1 s2 cl sch ab].
  simpl in Hc, Ha, Hs. subst cl ab.
  unfold round_trip, after_round_trip, set_schedule. simpl.
  destruct sch as [ | [i | ] sch]; simpl; auto.
  inversion Hs; discriminate.
Qed.

Lemma cursor_healthy (c : connection) : healthy c -> cursor c = (inl tt, c).
Proof. intros [[Hc _] _]. unfold cursor. rewrite Hc. reflexivity. Qed.

(** On a healthy connection a statement runs after its round trip, a
    [COMMIT] makes the working state durable, and a [ROLLBACK] gives the
    committed state back. *)
Lemma execute_healthy {A : Type} (statement : M connection A) (c : connection) :
  healthy c -> execute statement c = statement (after_round_trip c).
Proof.
  intros H. unfold execute, try_except, bind, get.
  rewrite (round_trip_healthy true c H).
  destruct H as [[_ Ha] _]. unfold after_round_trip. simpl. rewrite Ha.
  reflexivity.
Qed.

Lemma commit_healthy (c : connection) :
  healthy c ->
  commit c = (inl tt, set_committed (working c) (after_round_trip c)).
Proof.
  intros H. unfold commit, try_except, bind, get, put.
  rewrite (round_trip_healthy true c H).
  destruct H as [[_ Ha] _]. unfold after_round_trip. simpl. rewrite Ha.
  reflexivity.
Qed.

(** A round trip never touches the tables or the sequences. *)
Lemma round_trip_tables (b : bool) (c : connection) :
  working (snd (round_trip b c)) = working c
  /\ committed (snd (round_trip b c)) = committed c.
Proof.
  unfold round_trip. destruct (closed c); simpl; auto.
  destruct (schedule c) as [ | [[ | ] | ] sch]; simpl; auto.
  destruct b; simpl; auto.
Qed.

(** What a round trip raises. *)
Lemma execute_raises {A : Type} (statement : M connection A) (c : connection) :
  query_raises c -> exists e, fst (execute statement c) = inr e.
Proof.
  destruct c as [cm wk s1 s2 cl sch ab].
  intros [Hc | [Ha | [i [s Hs]]]]; simpl in *; subst.
  - eexists; reflexivity.
  - destruct cl; [eexists; reflexivity | ].
    destruct sch as [ | [[ | ] | ] sch]; eexists; reflexivity.
  - destruct cl; [eexists; reflexivity | ].
    destruct i; eexists; reflexivity.
Qed.

(** A statement never runs in an aborted transaction. *)
Lemma execute_aborted {A : Type} (statement : M connection A) (c : connection) :
  aborted c = true ->
  exists e, fst (execute statement c) = inr e
            /\ working (snd (execute statement c)) = working c
            /\ committed (snd (execute statement c)) = committed c
            /\ (closed (snd (execute statement c)) = false ->
                aborted (snd (execute statement c)) = true).
Proof.
  destruct c as [cm wk s1 s2 cl sch ab]. simpl. intros ->.
  destruct cl; [eexists; repeat split; discriminate | ].
  destruct sch as [ | [[ | ] | ] sch]; eexists; repeat split; discriminate.
Qed.

(** Case analysis on a healthy connection: its schedule is used up, or
    starts with a round trip that meets nothing. *)
Lemma healthy_cases (P : connection -> Prop) :
  (forall cm wk s1 s2, P (Build_connection cm wk s1 s2 false [] false)) ->
  (forall cm wk s1 s2 sch, Forall (fun i => i = None) sch ->
      P (Build_connection cm wk s1 s2 false (None :: sch) false)) ->
  forall c, healthy c -> P c.
Proof.
  intros H1 H2 [cm wk s1 s2 cl sch ab] [[Hc Ha] Hs]. simpl in Hc, Ha, Hs.
  subst cl ab.
  destruct sch as [ | [i | ] sch].
  - apply H1.
  - inversion Hs; discriminate.
  - apply H2. inversion Hs; auto.
Qed.

(** *** The monad *)

Lemma bind_cases {S A B : Type} (m : M S A) (k : A -> M S B) (s : S) :
  (exists a s', m s = (inl a, s') /\ bind m k s = k a s')
  \/ (exists e s', m s = (inr e, s') /\ bind m k s = (inr e, s')).
Proof.
  unfold bind. destruct (m s) as [[a | e] s'].
  - left. exists a, s'. auto.
  - right. exists e, s'. auto.
Qed.

Lemma preserves_ret {S A : Type} (I : S -> Prop) (a : A) : preserves I (ret a).
Proof. intros s H. exact H. Qed.

Lemma preserves_raise {S A : Type} (I : S -> Prop) (e : exn) :
  preserves I (@raise S A e).
Proof. intros s H. exact H. Qed.

Lemma preserves_bind {S A B : Type} (I : S -> Prop) (m : M S A) (k : A -> M S B) :
  preserves I m -> (forall a, preserves I (k a)) -> preserves I (bind m k).
Proof.
  intros Hm Hk s H. unfold bind. specialize (Hm s H).
  destruct (m s) as [[a | e] s']; simpl in *; auto. apply Hk; auto.
Qed.

Lemma preserves_try_except {S A : Type} (I : S -> Prop) (body : M S A)
  (handler : exn -> M S A) :
  preserves I body -> (forall e, preserves I (handler e)) ->
  preserves I (try_except body handler).
Proof.
  intros Hm Hk s H. unfold try_except. specialize (Hm s H).
  destruct (body s) as [[a | e] s']; simpl in *; auto. apply Hk; auto.
Qed.

Lemma preserves_if {S A : Type} (I : S -> Prop) (b : bool) (m1 m2 : M S A) :
  preserves I m1 -> preserves I m2 -> preserves I (if b then m1 else m2).
Proof. destruct b; auto. Qed.

(** A step that reads the state and replaces it. *)
Lemma preserves_modify {S A : Type} (I : S -> Prop) (f : S -> S) (g : S -> A) :
  (forall s, I s -> I (f s)) ->
  preserves I (s <- get ;; put (f s) ;; ret (g s)).
Proof. intros Hf s H. simpl. auto. Qed.

(** *** The primitives of the connection and an invariant of the tables *)

Section TableInvariant.

(** An invariant that speaks of the two states of the tables only. *)
Variable I : connection -> Prop.
Hypothesis I_tables :
  forall c c', working c' = working c -> committed c' = committed c -> I c -> I c'.

Lemma preserves_cursor : preserves I cursor.
Proof. intros c H. unfold cursor. destruct (closed c); exact H. Qed.

Lemma preserves_round_trip (b : bool) : preserves I (round_trip b).
Proof.
  intros c H. destruct (round_trip_tables b c) as [Hw Hc].
  eapply I_tables; eauto.
Qed.

Lemma preserves_refuse {A : Type} : preserves I (@refuse A).
Proof. intros c H. simpl. apply I_tables with (c := c); auto. Qed.

Lemma preserves_round_trip_or (b : bool) (handler : exn -> M connection unit) :
  (forall e, preserves I (handler e)) ->
  preserves I (try_except (round_trip b) handler).
Proof.
  intros H. apply preserves_try_except; auto using preserves_round_trip.
Qed.

Lemma preserves_execute {A : Type} (statement : M connection A) :
  preserves I statement -> preserves I (execute statement).
Proof.
  intros H. unfold execute. apply preserves_bind.
  - apply preserves_round_trip_or. intros [ | | | msg];
      auto using preserves_refuse, preserves_raise.
  - intros _ c Hc. unfold bind, get. destruct (aborted c); [exact Hc | ].
    apply H. exact Hc.
Qed.

Lemma preserves_query {A : Type} (q : tables -> list A) : preserves I (query q).
Proof. intros c H. exact H. Qed.

Lemma preserves_nextval_face_embeddings : preserves I nextval_face_embeddings.
Proof. intros c H. simpl. apply I_tables with (c := c); auto. Qed.

Lemma preserves_nextval_attendance : preserves I nextval_attendance.
Proof. intros c H. simpl. apply I_tables with (c := c); auto. Qed.

Lemma preserves_update (u : tables -> tables * Z) :
  (forall c, I c -> I (set_working (fst (u (working c))) c)) ->
  preserves I (update u).
Proof. intros Hu c H. simpl. auto. Qed.

Lemma preserves_end_transaction :
  (forall c, I c -> I (set_working (committed c) c)) ->
  preserves I end_transaction.
Proof.
  intros Hu c H. simpl.
  apply I_tables with (c := set_working (committed c) c); auto.
Qed.

Lemma preserves_commit :
  (forall c, I c -> I (set_committed (working c) c)) ->
  (forall c, I c -> I (set_working (committed c) c)) ->
  preserves I commit.
Proof.
  intros Hu Hr c H. unfold commit, try_except, bind, get.
  pose proof (preserves_round_trip true c H) as Hrt.
  destruct (round_trip true c) as [[[] | e] c1]; simpl in Hrt.
  - destruct (aborted c1).
    + apply preserves_end_transaction; auto.
    + simpl. auto.
  - destruct e; simpl; auto.
    apply (preserves_end_transaction Hr c1 Hrt).
Qed.

Lemma preserves_rollback :
  (forall c, I c -> I (set_working (committed c) c)) -> preserves I rollback.
Proof.
  intros Hu. unfold rollback. apply preserves_bind;
    auto using preserves_round_trip, preserves_end_transaction.
Qed.

End TableInvariant.

End ConnectionFacts.

(** ** The store *)

Section StoreFacts.

Import Py FaceVector Props.
Local Open Scope py_scope.
Local Open Scope string_scope.

(** *** Lists *)

Lemma filter_nil_iff {A : Type} (f : A -> bool) (l : list A) :
  filter f l = [] <-> forall x, In x l -> f x = false.
Proof.
  induction l as [ | a l IH]; simpl.
  - split; auto. intros _ x [].
  - destruct (f a) eqn:E; split.
    + discriminate.
    + intros H. rewrite (H a) in E by auto. discriminate.
    + intros H x [<- | Hin]; auto. apply IH; auto.
    + intros H. apply IH. auto.
Qed.

Lemma filter_negb_filter {A : Type} (f : A -> bool) (l : list A) :
  filter f (filter (fun x => negb (f x)) l) = [].
Proof.
  apply filter_nil_iff. intros x Hin. apply filter_In in Hin.
  destruct Hin as [_ H]. destruct (f x); auto; discriminate.
Qed.

Lemma filter_negb_id {A : Type} (f : A -> bool) (l : list A) :
  filter f l = [] -> filter (fun x => negb (f x)) l = l.
Proof.
  induction l as [ | a l IH]; simpl; auto.
  destruct (f a); simpl; [discriminate | ]. intros H. rewrite IH; auto.
Qed.

(** The pages of [execute_values] hold all the rows, in order. *)
Lemma paginate_concat {A : Type} (n fuel : nat) (l : list A) :
  (List.length l <= fuel)%nat -> List.concat (paginate fuel (S n) l) = l.
Proof.
  revert l. induction fuel as [ | fuel IH]; intros l Hl.
  - destruct l; [reflexivity | simpl in Hl; lia].
  - destruct l as [ | x l]; [reflexivity | ].
    cbn [paginate List.concat]. rewrite IH.
    + apply firstn_skipn.
    + rewrite length_skipn. simpl in *. lia.
Qed.

(** *** The upsert keeps one row for each name *)

Lemma rows_named_upsert_other (new : face_embedding) (name : string)
  (rows : list face_embedding) :
  fe_name new <> name ->
  List.length (rows_named name (insert_on_conflict_update new rows))
  = List.length (rows_named name rows).
Proof.
  intros Hne. induction rows as [ | row rows IH]; simpl.
  - apply String.eqb_neq in Hne. rewrite Hne. reflexivity.
  - destruct (fe_name row =? fe_name new) eqn:E; simpl;
      destruct (fe_name row =? name); simpl; auto.
Qed.

Lemma rows_named_upsert_same (new : face_embedding) (rows : list face_embedding) :
  List.length (rows_named (fe_name new) (insert_on_conflict_update new rows))
  = Nat.max 1 (List.length (rows_named (fe_name new) rows)).
Proof.
  induction rows as [ | row rows IH]; simpl.
  - rewrite String.eqb_refl. reflexivity.
  - destruct (fe_name row =? fe_name new) eqn:E; simpl; rewrite E; simpl; auto.
Qed.

Lemma unique_names_upsert (new : face_embedding) (rows : list face_embedding) :
  unique_names rows -> unique_names (insert_on_conflict_update new rows).
Proof.
  intros H name. destruct (string_dec (fe_name new) name) as [<- | Hne].
  - rewrite rows_named_upsert_same. specialize (H (fe_name new)). lia.
  - rewrite rows_named_upsert_other by auto. apply H.
Qed.

Lemma filter_filter_length {A : Type} (f g : A -> bool) (l : list A) :
  (List.length (filter g (filter f l)) <= List.length (filter g l))%nat.
Proof.
  induction l as [ | a l IH]; simpl; auto.
  destruct (f a); simpl; destruct (g a); simpl; lia.
Qed.

Lemma unique_names_filter (f : face_embedding -> bool) (rows : list face_embedding) :
  unique_names rows -> unique_names (filter f rows).
Proof.
  intros H name. specialize (H name). unfold rows_named in *.
  pose proof (filter_filter_length f (fun row => fe_name row =? name) rows). lia.
Qed.

(** With one row for each name, the upsert of a known name is the
    replacement of the embedding of its row. *)
Lemma upsert_known (new : face_embedding) (rows : list face_embedding) :
  unique_names rows ->
  rows_named (fe_name new) rows <> [] ->
  insert_on_conflict_update new rows
  = map (fun row => if fe_name row =? fe_name new
                    then with_embedding (fe_embedding new) row else row) rows.
Proof.
  induction rows as [ | row rows IH]; simpl; intros Hu Hk.
  - congruence.
  - destruct (fe_name row =? fe_name new) eqn:E.
    + f_equal. symmetry.
      assert (Hnone : rows_named (fe_name new) rows = []).
      { specialize (Hu (fe_name new)). simpl in Hu. rewrite E in Hu. simpl in Hu.
        destruct (rows_named (fe_name new) rows); auto. simpl in Hu. lia. }
      clear - Hnone. induction rows as [ | r rows IH]; simpl in *; auto.
      destruct (fe_name r =? fe_name new); [discriminate | ]. rewrite IH; auto.
    + f_equal. apply IH; auto.
      intros name. specialize (Hu name). simpl in Hu.
      destruct (fe_name row =? name); simpl in Hu; lia.
Qed.

(** Without a row for the name, the upsert adds the row at the end. *)
Lemma upsert_unknown (new : face_embedding) (rows : list face_embedding) :
  rows_named (fe_name new) rows = [] ->
  insert_on_conflict_update new rows = (rows ++ [new])%list.
Proof.
  induction rows as [ | row rows IH]; simpl; intros Hk; auto.
  destruct (fe_name row =? fe_name new); [discriminate | ]. rewrite IH; auto.
Qed.

(** *** Every method keeps one row for each name *)

Lemma names_unique_tables (c c' : connection) :
  working c' = working c -> committed c' = committed c ->
  names_unique c -> names_unique c'.
Proof. unfold names_unique. intros -> ->. auto. Qed.

Ltac keep_names :=
  repeat first
    [ apply preserves_ret
    | apply preserves_raise
    | apply preserves_cursor
    | apply (@preserves_commit _ names_unique_tables)
    | apply (@preserves_rollback _ names_unique_tables)
    | apply preserves_update
    | apply preserves_query
    | apply (@preserves_nextval_face_embeddings _ names_unique_tables)
    | apply (@preserves_nextval_attendance _ names_unique_tables)
    | apply (@preserves_execute _ names_unique_tables)
    | apply preserves_try_except
    | apply preserves_if
    | apply preserves_bind
    | match goal with |- forall _, _ => intro end ].

Lemma names_unique_commit (c : connection) :
  names_unique c -> names_unique (set_committed (working c) c).
Proof. intros [H _]. split; exact H. Qed.

Lemma names_unique_rollback (c : connection) :
  names_unique c -> names_unique (set_working (committed c) c).
Proof. intros [_ H]. split; exact H. Qed.

Lemma names_unique_upsert (new : face_embedding) (c : connection) :
  names_unique c ->
  names_unique (set_working (fst (upsert_face_embedding new (working c))) c).
Proof.
  intros [H1 H2]. split; [ | exact H2]. simpl. apply unique_names_upsert. exact H1.
Qed.

Lemma names_unique_delete (name : string) (c : connection) :
  names_unique c ->
  names_unique (set_working (fst (delete_face_embedding name (working c))) c).
Proof.
  intros [H1 H2]. split; [ | exact H2]. simpl. apply unique_names_filter. exact H1.
Qed.

Lemma names_unique_insert_attendance (ev : attendance_event) (c : connection) :
  names_unique c ->
  names_unique (set_working (fst (insert_attendance ev (working c))) c).
Proof. intros [H1 H2]. split; [exact H1 | exact H2]. Qed.

Create HintDb names.

#[local] Hint Resolve names_unique_commit names_unique_rollback names_unique_upsert
  names_unique_delete names_unique_insert_attendance : names.

Lemma store_embedding_names now name embedding :
  preserves names_unique (store_embedding now name embedding).
Proof. unfold store_embedding, insert_face_embedding. keep_names; auto with names. Qed.

Lemma insert_page_names now page : preserves names_unique (insert_page now page).
Proof.
  induction page as [ | [name embedding] page IH]; simpl.
  - apply preserves_ret.
  - unfold insert_face_embedding. keep_names; auto with names.
Qed.

Lemma execute_pages_names now pages : preserves names_unique (execute_pages now pages).
Proof.
  induction pages as [ | page pages IH]; simpl.
  - apply preserves_ret.
  - apply preserves_bind; [ | intros _; exact IH].
    apply (@preserves_execute _ names_unique_tables). apply insert_page_names.
Qed.

Lemma store_multiple_embeddings_names now embeddings_data :
  preserves names_unique (store_multiple_embeddings now embeddings_data).
Proof.
  unfold store_multiple_embeddings, execute_values.
  apply preserves_try_except.
  - apply preserves_bind; [apply preserves_cursor | intros _].
    apply preserves_bind; [apply execute_pages_names | intros _].
    keep_names; auto with names.
  - keep_names; auto with names.
Qed.

Lemma delete_user_names name : preserves names_unique (delete_user name).
Proof. unfold delete_user. keep_names; auto with names. Qed.

Lemma log_attendance_names now user_name event_type latitude longitude :
  preserves names_unique (log_attendance now user_name event_type latitude longitude).
Proof.
  unfold log_attendance, insert_attendance_event. keep_names; auto with names.
Qed.

Lemma vector_search_names cosine_distance encoding :
  preserves names_unique (vector_search cosine_distance encoding).
Proof. unfold vector_search. keep_names. Qed.

(** *** The outcome of the methods that write *)

Lemma store_embedding_outcome now name embedding c :
  let out := store_embedding now name embedding c in
  match fst out with
  | inl true =>
      working (snd out)
      = fst (upsert_face_embedding
               {| fe_id := face_embeddings_id_seq c; fe_name := name;
                  fe_embedding := embedding; fe_created_at := now |} (working c))
      /\ committed (snd out) = working (snd out)
      /\ closed (snd out) = false
  | inl false =>
      working (snd out) = committed c /\ committed (snd out) = committed c
      /\ closed (snd out) = false
  | inr e => closed (snd out) = true /\ committed (snd out) = committed c
  end.
Proof. connection_cases c; auto. Qed.

Lemma log_attendance_outcome now user_name event_type latitude longitude c :
  let out := log_attendance now user_name event_type latitude longitude c in
  match fst out with
  | inl true =>
      working (snd out)
      = fst (insert_attendance
               {| at_id := attendance_id_seq c; at_user_name := user_name;
                  at_event_type := event_type; at_event_time := now;
                  at_latitude := latitude; at_longitude := longitude |} (working c))
      /\ committed (snd out) = working (snd out)
      /\ closed (snd out) = false
  | inl false =>
      working (snd out) = committed c /\ committed (snd out) = committed c
      /\ closed (snd out) = false
  | inr e => closed (snd out) = true /\ committed (snd out) = committed c
  end.
Proof. connection_cases c; auto. Qed.

Lemma delete_user_outcome name c :
  let out := delete_user name c in
  match fst out with
  | inl true =>
      rows_named name (face_embeddings (working c)) <> []
      /\ working (snd out) = fst (delete_face_embedding name (working c))
      /\ committed (snd out) = working (snd out)
      /\ closed (snd out) = false
  | inl false =>
      (rows_named name (face_embeddings (working c)) = []
       /\ working (snd out) = fst (delete_face_embedding name (working c))
       /\ committed (snd out) = working (snd out))
      \/ (working (snd out) = committed c /\ committed (snd out) = committed c)
  | inr e => closed (snd out) = true /\ committed (snd out) = committed c
  end.
Proof.
  connection_cases c; auto;
    unfold rows_named, delete_face_embedding;
    destruct (filter (fun row => fe_name row =? name) (face_embeddings wk)) eqn:E;
    simpl; auto; repeat split; auto; discriminate.
Qed.

Lemma rollback_outcome c :
  let out := rollback c in
  match fst out with
  | inl _ => working (snd out) = committed c /\ committed (snd out) = committed c
             /\ closed (snd out) = false
  | inr e => closed (snd out) = true /\ committed (snd out) = committed c
  end.
Proof. connection_cases c; auto. Qed.

Lemma commit_outcome c :
  let out := commit c in
  match fst out with
  | inl _ => committed (snd out) = working (snd out)
             /\ (aborted c = false -> working (snd out) = working c)
             /\ closed (snd out) = false
  | inr e => committed (snd out) = committed c
  end.
Proof. connection_cases c; auto; repeat split; auto; discriminate. Qed.

Lemma committed_tables (t : tables) (c c' : connection) :
  working c' = working c -> committed c' = committed c ->
  committed c = t -> committed c' = t.
Proof. congruence. Qed.

Lemma execute_pages_committed now pages c :
  committed (snd (execute_pages now pages c)) = committed c.
Proof.
  revert c. induction pages as [ | page pages IH]; intros c; simpl; auto.
  unfold bind at 1.
  assert (Hp : committed (snd (execute (insert_page now page) c)) = committed c).
  { apply (@preserves_execute (fun s => committed s = committed c)
             (committed_tables (committed c))); auto.
    clear. induction page as [ | [name embedding] page IH]; simpl.
    - apply preserves_ret.
    - apply preserves_bind; [ | intros _; exact IH].
      unfold insert_face_embedding. apply preserves_bind.
      + apply (@preserves_nextval_face_embeddings _ (committed_tables (committed c))).
      + intros id. apply preserves_update. auto. }
  destruct (execute (insert_page now page) c) as [[[] | e] c1]; simpl in *; auto.
  rewrite IH. exact Hp.
Qed.

Lemma store_multiple_embeddings_outcome now embeddings_data c :
  let out := store_multiple_embeddings now embeddings_data c in
  match fst out with
  | inl true => committed (snd out) = working (snd out) /\ closed (snd out) = false
  | inl false =>
      working (snd out) = committed c /\ committed (snd out) = committed c
      /\ closed (snd out) = false
  | inr e => closed (snd out) = true /\ committed (snd out) = committed c
  end.
Proof.
  unfold store_multiple_embeddings, execute_values.
  set (pages := paginate _ _ _).
  assert (Hbody : forall r c1,
    (cursor ;; execute_pages now pages ;; commit ;; ret true) c = (r, c1) ->
    match r with
    | inl b => b = true /\ committed c1 = working c1 /\ closed c1 = false
    | inr e => committed c1 = committed c
    end).
  { intros r c3. unfold bind, cursor. destruct (closed c) eqn:Ec.
    { intros [= <- <-]. reflexivity. }
    pose proof (execute_pages_committed now pages c) as Hp.
    destruct (execute_pages now pages c) as [[[] | e] c1]; simpl in Hp.
    2:{ intros [= <- <-]. exact Hp. }
    pose proof (commit_outcome c1) as Hc.
    destruct (commit c1) as [[[] | e] c2]; simpl in Hc; intros [= <- <-].
    - destruct Hc as [H1 [H2 H3]]. repeat split; congruence.
    - congruence. }
  unfold try_except.
  destruct ((cursor ;; execute_pages now pages ;; commit ;; ret true) c)
    as [[b | e] c1]; specialize (Hbody _ _ eq_refl); simpl in Hbody.
  - destruct Hbody as [-> [H1 H2]]. simpl. auto.
  - unfold bind. pose proof (rollback_outcome c1) as Hr.
    destruct (rollback c1) as [[[] | e'] c2]; simpl in *.
    + destruct Hr as [H1 [H2 H3]]. repeat split; congruence.
    + destruct Hr as [H1 H2]. split; congruence.
Qed.

(** As long as the connection stays open, the three methods that store
    return a boolean, and [False] comes with the working state rolled back
    to the committed state, which is the one before the call. *)
Lemma store_writes_on_live_connection now name embedding embeddings_data
  user_name event_type latitude longitude c :
  forall out,
    out = store_embedding now name embedding c
    \/ out = store_multiple_embeddings now embeddings_data c
    \/ out = log_attendance now user_name event_type latitude longitude c ->
    closed (snd out) = false ->
    exists b, fst out = inl b
              /\ (b = false ->
                  working (snd out) = committed c
                  /\ committed (snd out) = committed c).
Proof.
  intros out [-> | [-> | ->]] Hopen.
  - pose proof (store_embedding_outcome now name embedding c) as H. cbv zeta in H.
    destruct (fst (store_embedding now name embedding c)) as [[ | ] | e].
    + exists true. split; [reflexivity | discriminate].
    + exists false. split; [reflexivity | ]. intros _. split; apply H.
    + destruct H as [H _]. congruence.
  - pose proof (store_multiple_embeddings_outcome now embeddings_data c) as H.
    cbv zeta in H.
    destruct (fst (store_multiple_embeddings now embeddings_data c)) as [[ | ] | e].
    + exists true. split; [reflexivity | discriminate].
    + exists false. split; [reflexivity | ]. intros _. split; apply H.
    + destruct H as [H _]. congruence.
  - pose proof (log_attendance_outcome now user_name event_type latitude
                  longitude c) as H. cbv zeta in H.
    destruct (fst (log_attendance now user_name event_type latitude longitude c))
      as [[ | ] | e].
    + exists true. split; [reflexivity | discriminate].
    + exists false. split; [reflexivity | ]. intros _. split; apply H.
    + destruct H as [H _]. congruence.
Qed.

(** A refused [INSERT] on a live connection: [False], and the tables are
    as before. *)
Example refused_statement_returns_false :
  store_embedding 0 "alice" [1%R; 0%R] (connect empty_tables [Some StatementError])
  = (inl false, connect empty_tables []).
Proof. reflexivity. Qed.

(** *** The outcome of the methods that read *)

Lemma vector_search_outcome cosine_distance encoding c :
  let out := vector_search cosine_distance encoding c in
  working (snd out) = working c /\ committed (snd out) = committed c
  /\ (fst out = inl (select_nearest cosine_distance encoding (working c))
      \/ fst out = inl []).
Proof. connection_cases c; auto. Qed.

Lemma vector_search_healthy cosine_distance encoding c :
  healthy c ->
  vector_search cosine_distance encoding c
  = (inl (select_nearest cosine_distance encoding (working c)), after_round_trip c).
Proof.
  revert c. apply healthy_cases; intros; reflexivity.
Qed.

Lemma has_checked_in_today_tables now user_name c :
  working (snd (has_checked_in_today now user_name c)) = working c
  /\ committed (snd (has_checked_in_today now user_name c)) = committed c.
Proof. connection_cases c; auto. Qed.

Lemma has_checked_out_today_tables now user_name c :
  working (snd (has_checked_out_today now user_name c)) = working c
  /\ committed (snd (has_checked_out_today now user_name c)) = committed c.
Proof. connection_cases c; auto. Qed.

Lemma has_checked_in_today_healthy now user_name c :
  healthy c ->
  has_checked_in_today now user_name c =
  (inl (match events_on user_name "checkin" (DATE now) (attendance (working c)) with
        | [] => false | _ :: _ => true end), after_round_trip c).
Proof.
  revert c. apply healthy_cases; intros; run_connection;
    unfold select_event_on; simpl; destruct (events_on _ _ _ _); reflexivity.
Qed.

Lemma has_checked_out_today_healthy now user_name c :
  healthy c ->
  has_checked_out_today now user_name c =
  (inl (match events_on user_name "checkout" (DATE now) (attendance (working c)) with
        | [] => false | _ :: _ => true end), after_round_trip c).
Proof.
  revert c. apply healthy_cases; intros; run_connection;
    unfold select_event_on; simpl; destruct (events_on _ _ _ _); reflexivity.
Qed.




Lemma store_embedding_healthy now name embedding c :
  healthy c ->
  exists c',
    store_embedding now name embedding c = (inl true, c')
    /\ healthy c'
    /\ working c'
       = fst (upsert_face_embedding
                {| fe_id := face_embeddings_id_seq c; fe_name := name;
                   fe_embedding := embedding; fe_created_at := now |} (working c))
    /\ committed c' = working c'.
Proof.
  revert c. apply healthy_cases.
  - intros. eexists. split; [reflexivity | ]. simpl.
    split; [repeat split; constructor | auto].
  - intros cm wk s1 s2 sch Hs. destruct sch as [ | [i | ] sch].
    + eexists. split; [reflexivity | ]. simpl.
      split; [repeat split; constructor | auto].
    + inversion Hs; discriminate.
    + eexists. split; [reflexivity | ]. simpl.
      split; [repeat split; inversion Hs; auto | auto].
Qed.

(** *** A statement that is refused, and the aborted transaction *)






End StoreFacts.

(** ** The nearest identities *)

Section SearchFacts.

Import FaceVector Props.

Variable A : Type.
Variable key : A -> R.


Lemma insert_by_perm (x : A) (l : list A) :
  Permutation (insert_by key x l) (x :: l).
Proof.
  induction l as [ | y l IH]; simpl; auto.
  destruct (Rle_dec (key x) (key y)); auto.
  rewrite IH. apply perm_swap.
Qed.

Lemma order_by_perm (l : list A) : Permutation (order_by key l) l.
Proof.
  induction l as [ | x l IH]; simpl; auto.
  rewrite insert_by_perm. auto.
Qed.

Lemma insert_by_sorted (x : A) (l : list A) :
  StronglySorted (key_le key) l -> StronglySorted (key_le key) (insert_by key x l).
Proof.
  induction l as [ | y l IH]; simpl; intros Hs.
  - constructor; auto.
  - inversion Hs as [ | y' l' Hl Hy]; subst.
    destruct (Rle_dec (key x) (key y)) as [Hle | Hgt].
    + constructor; auto. constructor; auto.
      eapply Forall_impl; [ | exact Hy]. unfold key_le. intros z Hz. lra.
    + constructor; auto.
      eapply Permutation_Forall.
      * symmetry. apply insert_by_perm.
      * constructor; auto. unfold key_le. lra.
Qed.

Lemma order_by_sorted (l : list A) : StronglySorted (key_le key) (order_by key l).
Proof.
  induction l as [ | x l IH]; simpl.
  - constructor.
  - apply insert_by_sorted. exact IH.
Qed.

Lemma In_firstn (n : nat) (l : list A) (x : A) : In x (firstn n l) -> In x l.
Proof.
  intros H. rewrite <- (firstn_skipn n l). apply in_or_app. auto.
Qed.

Lemma StronglySorted_firstn (le : A -> A -> Prop) (n : nat) (l : list A) :
  StronglySorted le l -> StronglySorted le (firstn n l).
Proof.
  revert n. induction l as [ | x l IH]; intros [ | n] Hs; simpl; try constructor.
  - apply IH. inversion Hs; auto.
  - inversion Hs as [ | x' l' Hl Hx]; subst.
    apply Forall_forall. intros y Hy. apply In_firstn in Hy.
    rewrite Forall_forall in Hx. auto.
Qed.

Lemma StronglySorted_map (B : Type) (f : A -> B) (le : A -> A -> Prop)
  (le' : B -> B -> Prop) (l : list A) :
  (forall x y, le x y -> le' (f x) (f y)) ->
  StronglySorted le l -> StronglySorted le' (map f l).
Proof.
  intros H. induction 1 as [ | x l Hl IH Hx]; simpl; constructor; auto.
  apply Forall_map. eapply Forall_impl; [ | exact Hx]. auto.
Qed.

(** In a sorted list, what comes first is below what comes later. *)
Lemma StronglySorted_app_le (le : A -> A -> Prop) (l1 l2 : list A) :
  StronglySorted le (l1 ++ l2) ->
  forall x y, In x l1 -> In y l2 -> le x y.
Proof.
  induction l1 as [ | a l1 IH]; simpl; intros Hs x y Hx Hy; [contradiction | ].
  inversion Hs as [ | a' l' Hl Ha]; subst.
  destruct Hx as [<- | Hx].
  - rewrite Forall_forall in Ha. apply Ha. apply in_or_app. auto.
  - eapply IH; eauto.
Qed.

End SearchFacts.

Section VectorSearch.

Import Py FaceVector Props.
Local Open Scope string_scope.
Local Open Scope R_scope.

Variable cosine_distance : list R -> list R -> R.

(** The rows of a table that clear the threshold of [vector_search]. *)
Lemma select_nearest_spec (encoding : list R) (t : tables) :
  let results := select_nearest cosine_distance encoding t in
  (List.length results <= 5)%nat
  /\ Forall (fun r =>
               sr_similarity r > 0.9
               /\ exists row, In row (face_embeddings t)
                              /\ sr_id r = fe_id row /\ sr_name r = fe_name row
                              /\ sr_embedding r = fe_embedding row
                              /\ sr_similarity r
                                 = 1 - cosine_distance (fe_embedding row) encoding)
            results
  /\ StronglySorted (fun r1 r2 => sr_similarity r1 >= sr_similarity r2) results
  /\ ((forall row, In row (face_embeddings t) ->
         ~ 1 - cosine_distance (fe_embedding row) encoding > 0.9) ->
      results = []).
Proof.
  unfold select_nearest.
  set (key := fun row => cosine_distance (fe_embedding row) encoding).
  set (clear := fun row => Math.gtb (1 - cosine_distance (fe_embedding row) encoding) 0.9).
  split; [ | split; [ | split]].
  - rewrite length_map. apply firstn_le_length.
  - apply Forall_map. apply Forall_forall. intros row Hin. simpl.
    apply In_firstn in Hin.
    apply (Permutation_in _ (order_by_perm _ key _)) in Hin.
    apply filter_In in Hin. destruct Hin as [Hin Hc].
    split; [apply gtb_true_iff; exact Hc | ].
    exists row. repeat split; auto.
  - apply (StronglySorted_map _ _ _ (key_le key)).
    + unfold key_le, key. simpl. intros x y H. lra.
    + apply StronglySorted_firstn. apply order_by_sorted.
  - intros Hnone.
    assert (Hf : filter clear (face_embeddings t) = []).
    { apply filter_nil_iff. intros row Hin. specialize (Hnone row Hin).
      unfold clear. destruct (Math.gtb _ _) eqn:E; auto.
      apply gtb_true_iff in E. contradiction. }
    rewrite Hf. reflexivity.
Qed.

(** Claim C3. For every query embedding and every state of the
    connection, [vector_search] returns a list, never an error: at most 5
    results, each the row of a stored identity whose similarity
    [1 - cosine_distance] to the query is strictly above 0.9, in order of
    decreasing similarity; when no stored identity clears the threshold the
    list is empty. *)
Theorem vector_search_contract (encoding : list R) (c : connection) :
  exists results,
    fst (vector_search cosine_distance encoding c) = inl results
    /\ (List.length results <= 5)%nat
    /\ Forall (fun r =>
                 sr_similarity r > 0.9
                 /\ exists row, In row (identities c)
                                /\ sr_id r = fe_id row /\ sr_name r = fe_name row
                                /\ sr_embedding r = fe_embedding row
                                /\ sr_similarity r
                                   = 1 - cosine_distance (fe_embedding row) encoding)
              results
    /\ StronglySorted (fun r1 r2 => sr_similarity r1 >= sr_similarity r2) results
    /\ ((forall row, In row (identities c) ->
           ~ 1 - cosine_distance (fe_embedding row) encoding > 0.9) ->
        results = []).
Proof.
  destruct (vector_search_outcome cosine_distance encoding c) as [_ [_ [H | H]]].
  - exists (select_nearest cosine_distance encoding (working c)).
    split; [exact H | ]. apply select_nearest_spec.
  - exists []. split; [exact H | ].
    split; [simpl; lia | ]. split; [constructor | ]. split; [constructor | auto].
Qed.

(** On a healthy connection the search misses no nearer identity: a row
    that clears the threshold is returned, or five rows at least as
    similar are. *)
Lemma vector_search_nearest (encoding : list R) (c : connection) (row : face_embedding) :
  healthy c ->
  In row (identities c) ->
  1 - cosine_distance (fe_embedding row) encoding > 0.9 ->
  exists results,
    fst (vector_search cosine_distance encoding c) = inl results
    /\ results <> []
    /\ ((exists r, In r results /\ sr_id r = fe_id row /\ sr_name r = fe_name row
                   /\ sr_embedding r = fe_embedding row)
        \/ (List.length results = 5%nat
            /\ Forall (fun r => sr_similarity r
                                >= 1 - cosine_distance (fe_embedding row) encoding)
                 results)).
Proof.
  intros Hh Hin Hc. rewrite vector_search_healthy by exact Hh.
  eexists. split; [reflexivity | ]. unfold select_nearest.
  set (key := fun row => cosine_distance (fe_embedding row) encoding).
  set (clear := fun row => Math.gtb (1 - cosine_distance (fe_embedding row) encoding) 0.9).
  set (l := order_by key (filter clear (face_embeddings (working c)))).
  assert (Hl : In row l).
  { apply (Permutation_in _ (Permutation_sym (order_by_perm _ key _))).
    apply filter_In. split; [exact Hin | ]. apply gtb_true_iff. exact Hc. }
  assert (Hs : StronglySorted (key_le key) (firstn 5 l ++ skipn 5 l)).
  { rewrite firstn_skipn. apply order_by_sorted. }
  split.
  - destruct l as [ | x l']; [contradiction | ]. simpl. discriminate.
  - rewrite <- (firstn_skipn 5 l) in Hl. apply in_app_or in Hl.
    destruct Hl as [Hl | Hl].
    + left. eexists. split; [apply in_map; exact Hl | ]. simpl. auto.
    + right. split.
      * rewrite length_map, length_firstn.
        assert (5 < List.length l)%nat.
        { destruct (Nat.lt_ge_cases 5 (List.length l)) as [ | Hle]; auto.
          rewrite skipn_all2 in Hl by exact Hle. contradiction. }
        lia.
      * apply Forall_map. apply Forall_forall. intros x Hx. simpl.
        pose proof (StronglySorted_app_le _ _ _ _ Hs x row Hx Hl) as Hle.
        unfold key_le, key in Hle. lra.
Qed.

End VectorSearch.

(** ** The handlers *)

Section HandlerFacts.

Import Py FaceVector Main Props.
Local Open Scope py_scope.
Local Open Scope string_scope.

Lemma process_checkin_outside now photo latitude longitude w :
  Geofence.is_within_geofence latitude longitude = false ->
  process_checkin now photo (Some latitude) (Some longitude) w
  = (inl checkin_outside, w).
Proof. intros H. run_handler. rewrite H. reflexivity. Qed.

Lemma process_checkout_outside now photo latitude longitude w :
  Geofence.is_within_geofence latitude longitude = false ->
  process_checkout now photo (Some latitude) (Some longitude) w
  = (inl checkout_outside, w).
Proof. intros H. run_handler. rewrite H. reflexivity. Qed.

Lemma process_checkin_inside now photo latitude longitude w :
  Geofence.is_within_geofence latitude longitude = true ->
  exists rest,
    effects (snd (process_checkin now photo (Some latitude) (Some longitude) w))
    = (effects w ++ FaceProcessing :: rest)%list.
Proof.
  intros H. run_handler. rewrite H. run_handler.
  destruct photo as [[ | face faces] | e]; run_handler;
    try (eexists; reflexivity).
  destruct (face_name face =? "Unknown"); run_handler;
    try (eexists; reflexivity).
  destruct (has_checked_in_today now (face_name face) (db_handler w))
    as [[[ | ] | e] c1]; run_handler;
    try (eexists; rewrite <- app_assoc; reflexivity).
  destruct (log_attendance now (face_name face) "checkin" latitude longitude c1)
    as [[b | e] c2]; run_handler;
    eexists; rewrite <- !app_assoc; reflexivity.
Qed.

Lemma process_checkout_inside now photo latitude longitude w :
  Geofence.is_within_geofence latitude longitude = true ->
  exists rest,
    effects (snd (process_checkout now photo (Some latitude) (Some longitude) w))
    = (effects w ++ FaceProcessing :: rest)%list.
Proof.
  intros H. run_handler. rewrite H. run_handler.
  destruct photo as [[ | face faces] | e]; run_handler;
    try (eexists; reflexivity).
  destruct (face_name face =? "Unknown"); run_handler;
    try (eexists; reflexivity).
  destruct (has_checked_out_today now (face_name face) (db_handler w))
    as [[[ | ] | e] c1]; run_handler;
    try (eexists; rewrite <- app_assoc; reflexivity).
  destruct (log_attendance now (face_name face) "checkout" latitude longitude c1)
    as [[b | e] c2]; run_handler;
    eexists; rewrite <- !app_assoc; reflexivity.
Qed.












Lemma events_on_of user_name event_type today events :
  events_of user_name events = [] ->
  events_on user_name event_type today events = [].
Proof.
  unfold events_of, events_on. rewrite !filter_nil_iff.
  intros H ev Hin. rewrite (H ev Hin). reflexivity.
Qed.








(** Claim C8. The haversine distance of a point to itself is 0, and the
    distance is symmetric in its two points. *)
Theorem haversine_zero_and_symmetric (lat1 lon1 lat2 lon2 : R) :
  Geofence.haversine lat1 lon1 lat1 lon1 = 0%R
  /\ Geofence.haversine lat1 lon1 lat2 lon2 = Geofence.haversine lat2 lon2 lat1 lon1.
Proof. split; [apply haversine_self | apply haversine_sym]. Qed.

(** Claim C2. If the reported point is farther than [MAX_DISTANCE]
    (100 metres, by [haversine]) from every zone of [GEOFENCES], check-in
    and check-out answer with the geofence rejection and leave the world as
    it was: the store is untouched and neither the face processor nor the
    store was called. If the point is within that distance of some zone,
    the gate passes and the handler goes on to the face processor. The
    zones are joined: a point passes for two lists of zones when it passes
    for one of them. *)
Theorem geofence_gate
  (now : Z) (photo : list detected_face + exn) (latitude longitude : R) (w : world) :
  ((forall zone, In zone (Geofence.values Geofence.GEOFENCES) ->
      (Geofence.haversine latitude longitude (fst zone) (snd zone)
       > Geofence.MAX_DISTANCE)%R) ->
   process_checkin now photo (Some latitude) (Some longitude) w
   = (inl checkin_outside, w)
   /\ process_checkout now photo (Some latitude) (Some longitude) w
      = (inl checkout_outside, w))
  /\ ((exists zone, In zone (Geofence.values Geofence.GEOFENCES) /\
         (Geofence.haversine latitude longitude (fst zone) (snd zone)
          <= Geofence.MAX_DISTANCE)%R) ->
      Geofence.is_within_geofence latitude longitude = true
      /\ (exists rest,
            effects (snd (process_checkin now photo (Some latitude)
                            (Some longitude) w))
            = (effects w ++ FaceProcessing :: rest)%list)
      /\ (exists rest,
            effects (snd (process_checkout now photo (Some latitude)
                            (Some longitude) w))
            = (effects w ++ FaceProcessing :: rest)%list))
  /\ (forall zones1 zones2 : list (R * R),
        Geofence.within_any (zones1 ++ zones2) latitude longitude
        = Geofence.within_any zones1 latitude longitude
          || Geofence.within_any zones2 latitude longitude).
Proof.
  split; [ | split].
  - intros Hfar. apply within_any_false_iff in Hfar.
    split; [apply process_checkin_outside | apply process_checkout_outside];
      exact Hfar.
  - intros Hnear. apply within_any_iff in Hnear.
    split; [exact Hnear | ].
    split; [apply process_checkin_inside | apply process_checkout_inside];
      exact Hnear.
  - intros. apply within_any_app.
Qed.

Lemma geofence_gate_witness :
  process_checkin 0 (inl [alice]) (Some far_latitude) (Some office_longitude)
    (alice_world []) = (inl checkin_outside, alice_world [])
  /\ Geofence.is_within_geofence office_latitude office_longitude = true.
Proof.
  split.
  - apply (geofence_gate 0 (inl [alice]) far_latitude office_longitude
             (alice_world [])).
    exact far_point_outside.
  - apply (geofence_gate 0 (inl [alice]) office_latitude office_longitude
             (alice_world [])).
    exists (office_latitude, office_longitude). split.
    + left. reflexivity.
    + simpl. rewrite haversine_self. unfold Geofence.MAX_DISTANCE. lra.
Defined.

(** Claim C10. The default latitude and longitude of the check-in and
    check-out handlers are the centre of the office zone of [GEOFENCES];
    their haversine distance to that centre is 0, so a request without
    location passes the geofence gate and the handler goes on to the face
    processor. *)
Theorem default_location_passes_geofence
  (now : Z) (photo : list detected_face + exn) (w : world) :
  In (default 16.5422428%R None, default 81.4968464%R None)
     (Geofence.values Geofence.GEOFENCES)
  /\ Geofence.haversine (default 16.5422428%R None) (default 81.4968464%R None)
       16.5422428%R 81.4968464%R = 0%R
  /\ Geofence.is_within_geofence (default 16.5422428%R None)
       (default 81.4968464%R None) = true
  /\ (exists rest,
        effects (snd (process_checkin now photo None None w))
        = (effects w ++ FaceProcessing :: rest)%list)
  /\ (exists rest,
        effects (snd (process_checkout now photo None None w))
        = (effects w ++ FaceProcessing :: rest)%list).
Proof.
  split; [left; reflexivity | ].
  split; [apply haversine_self | ].
  split; [exact office_within_geofence | ].
  split.
  - exact (process_checkin_inside now photo _ _ w office_within_geofence).
  - exact (process_checkout_inside now photo _ _ w office_within_geofence).
Qed.

End HandlerFacts.

(** ** Enrolment *)

Section EnrolmentFacts.

Import Py FaceVector Main Props.
Local Open Scope py_scope.
Local Open Scope string_scope.

Variable cosine_distance : list R -> list R -> R.

Lemma preserves_call_db {A : Type} (I : connection -> Prop) (m : M connection A) :
  preserves I m -> preserves (fun w => I (db_handler w)) (call_db m).
Proof.
  intros H w Hw. unfold call_db. specialize (H (db_handler w) Hw).
  destruct (m (db_handler w)) as [r c]. exact H.
Qed.

Lemma preserves_call_face_processor {A : Type} (I : connection -> Prop)
  (answer : A + exn) :
  preserves (fun w => I (db_handler w)) (call_face_processor answer).
Proof. intros w Hw. exact Hw. Qed.

Lemma preserves_save_photo (I : connection -> Prop) (outcome : unit + exn) :
  preserves (fun w => I (db_handler w)) (save_photo outcome).
Proof. intros w Hw. exact Hw. Qed.

Lemma enroll_photo_names now name saved photo :
  preserves (fun w => names_unique (db_handler w))
    (enroll_photo cosine_distance now name saved photo).
Proof.
  unfold enroll_photo, _process_employee_image.
  apply preserves_try_except; [ | intros e; apply preserves_ret].
  apply preserves_if; [apply preserves_ret | ].
  apply preserves_bind; [apply preserves_save_photo | ]. intros _.
  apply preserves_bind; [apply preserves_call_face_processor | ].
  intros [encoding | ]; [ | apply preserves_ret].
  apply preserves_bind.
  { apply (preserves_call_db names_unique). apply vector_search_names. }
  intros [ | similar rest]; [ | apply preserves_ret].
  apply preserves_bind.
  { apply (preserves_call_db names_unique). apply store_embedding_names. }
  intros stored. apply preserves_if; apply preserves_ret.
Qed.

Lemma enroll_all_names requests w :
  names_unique (db_handler w) ->
  names_unique (db_handler (enroll_all cosine_distance requests w)).
Proof.
  revert w. induction requests as [ | r requests IH]; intros w H; simpl; auto.
  apply IH. apply (enroll_photo_names (en_now r) (en_name r) (en_saved r) (en_photo r) w H).
Qed.

(** An enrolment that answers with success has stored the embedding. *)
Lemma enroll_photo_success now name saved photo w r w' :
  enroll_photo cosine_distance now name saved photo w = (inl r, w') ->
  status_code r = None ->
  exists encoding id,
    photo = inl (Some encoding)
    /\ working (db_handler w')
       = fst (upsert_face_embedding
                {| fe_id := id; fe_name := strip name; fe_embedding := encoding;
                   fe_created_at := now |} (working (db_handler w)))
    /\ committed (db_handler w') = working (db_handler w').
Proof.
  run_handler.
  destruct ((name =? "") || (strip name =? "")).
  { intros [= <- <-]. simpl. discriminate. }
  destruct saved as [[] | e]; run_handler;
    try (intros [= <- <-]; simpl; discriminate).
  destruct photo as [[encoding | ] | e]; run_handler;
    try (intros [= <- <-]; simpl; discriminate).
  pose proof (vector_search_outcome cosine_distance encoding (db_handler w))
    as [Hw [Hc _]].
  destruct (vector_search cosine_distance encoding (db_handler w))
    as [[[ | similar rest] | e] c1]; run_handler;
    try (intros [= <- <-]; simpl; discriminate).
  simpl in Hw, Hc.
  pose proof (store_embedding_outcome now (strip name) encoding c1) as Hs.
  destruct (store_embedding now (strip name) encoding c1)
    as [[[ | ] | e] c2]; run_handler; intros [= <- <-]; simpl;
    try discriminate.
  intros _. simpl in Hs. destruct Hs as [H1 [H2 H3]].
  exists encoding, (face_embeddings_id_seq c1).
  split; [reflexivity | ]. split; [ | exact H2]. rewrite H1, Hw. reflexivity.
Qed.

(** On a healthy connection, a named photo with a face unlike every stored
    one is enrolled. *)
Lemma enroll_photo_healthy now name encoding w :
  healthy (db_handler w) ->
  strip name <> "" ->
  select_nearest cosine_distance encoding (working (db_handler w)) = [] ->
  exists w',
    enroll_photo cosine_distance now name (inl tt) (inl (Some encoding)) w
    = (inl {| status_code := None;
              enroll_message :=
                "Embedding stored successfully for " ++ strip name ++ "." |}, w').
Proof.
  intros Hh Hname Hnone. apply String.eqb_neq in Hname.
  assert (Hn : (name =? "") = false).
  { destruct name; [ | reflexivity]. discriminate. }
  run_handler. rewrite Hn, Hname. cbn [orb]. run_handler.
  rewrite vector_search_healthy by exact Hh. rewrite Hnone. run_handler.
  destruct (store_embedding_healthy now (strip name) encoding
              (after_round_trip (db_handler w)) (healthy_after_round_trip _ Hh))
    as [c' [Hs _]].
  rewrite Hs. run_handler. eexists. reflexivity.
Qed.

(** Claim C4. From a store with at most one row for each name, after any
    sequence of enrolment requests there is at most one row for each name,
    in the working and in the committed state. An enrolment that answers
    with success has committed the row of the stripped name: if the name
    was enrolled, its row keeps its place, id and creation time and holds
    the new embedding, and no row is added; otherwise one row is added. *)
Theorem enrollment_upserts (requests : list enrollment) (w : world) :
  names_unique (db_handler w) ->
  (forall name,
     (List.length
        (rows_named name
           (identities (db_handler (enroll_all cosine_distance requests w))))
      <= 1)%nat
     /\ (List.length
           (rows_named name
              (face_embeddings
                 (committed (db_handler (enroll_all cosine_distance requests w)))))
         <= 1)%nat)
  /\ (forall now name saved photo r w',
        enroll_photo cosine_distance now name saved photo w = (inl r, w') ->
        status_code r = None ->
        exists encoding,
          photo = inl (Some encoding)
          /\ committed (db_handler w') = working (db_handler w')
          /\ (rows_named (strip name) (identities (db_handler w)) <> [] ->
              identities (db_handler w')
              = map (fun row => if fe_name row =? strip name
                                then with_embedding encoding row else row)
                    (identities (db_handler w)))
          /\ (rows_named (strip name) (identities (db_handler w)) = [] ->
              exists id,
                identities (db_handler w')
                = (identities (db_handler w)
                   ++ [ {| fe_id := id; fe_name := strip name;
                           fe_embedding := encoding;
                           fe_created_at := now |} ])%list)).
Proof.
  intros Hu. split.
  - intros name. destruct (enroll_all_names requests w Hu) as [H1 H2].
    split; [apply H1 | apply H2].
  - intros now name saved photo r w' Hrun Hok.
    destruct (enroll_photo_success now name saved photo w r w' Hrun Hok)
      as [encoding [id [Hp [Hw Hc]]]].
    exists encoding. split; [exact Hp | ]. split; [exact Hc | ].
    unfold identities. rewrite Hw. simpl. destruct Hu as [Hu _]. split.
    + intros Hk. apply (upsert_known
                          {| fe_id := id; fe_name := strip name;
                             fe_embedding := encoding; fe_created_at := now |});
        assumption.
    + intros Hk. exists id.
      apply (upsert_unknown
               {| fe_id := id; fe_name := strip name;
                  fe_embedding := encoding; fe_created_at := now |}).
      exact Hk.
Qed.

Lemma all_unlike_nearest (encoding : list R) (t : tables) :
  select_nearest all_unlike encoding t = [].
Proof.
  unfold select_nearest.
  replace (filter _ (face_embeddings t)) with (@nil face_embedding); [reflexivity | ].
  symmetry. apply filter_nil_iff. intros row _. unfold all_unlike, Math.gtb.
  destruct (Rgt_dec (1 - 1) 0.9); [exfalso; lra | reflexivity].
Qed.

Lemma unique_names_one (row : face_embedding) : unique_names [row].
Proof.
  intros name. unfold rows_named. cbn [filter].
  destruct (fe_name row =? name); simpl; lia.
Qed.

Lemma alice_names_unique (s : list (option incident)) :
  names_unique (db_handler (alice_world s)).
Proof. split; apply unique_names_one. Qed.

End EnrolmentFacts.

Section EnrolmentWitness.

Import Py FaceVector Main Props.
Local Open Scope string_scope.

Lemma enrollment_upserts_witness :
  identities
    (db_handler
       (snd (enroll_photo all_unlike 10 " alice " (inl tt) (inl (Some [0%R; 1%R]))
               (alice_world []))))
  = [alice_row [0%R; 1%R]].
Proof.
  assert (Hh : healthy (db_handler (alice_world [])))
    by (repeat split; constructor).
  assert (Hn : strip " alice " <> "") by discriminate.
  destruct (enroll_photo_healthy all_unlike 10 " alice " [0%R; 1%R] (alice_world [])
              Hh Hn (all_unlike_nearest _ _)) as [w' Hrun].
  destruct (enrollment_upserts all_unlike [] (alice_world [])
              (alice_names_unique [])) as [_ H].
  destruct (H _ _ _ _ _ _ Hrun eq_refl) as [encoding [Hp [_ [Hk _]]]].
  injection Hp as <-. rewrite Hrun. simpl snd. rewrite Hk.
  - reflexivity.
  - discriminate.
Defined.

End EnrolmentWitness.

(** ** Deletion and failures of the store *)

Section DeleteFacts.

Import Py FaceVector Main Props.
Local Open Scope string_scope.

Lemma delete_user_healthy name c :
  healthy c ->
  fst (delete_user name c)
  = inl (match rows_named name (identities c) with [] => false | _ :: _ => true end).
Proof.
  revert c. apply healthy_cases; intros; unfold identities, rows_named;
    run_connection; unfold delete_face_embedding; cbn [fst snd];
    try (destruct sch as [ | [i | ] sch];
         [ | match goal with H : Forall _ _ |- _ => inversion H; discriminate end | ]);
    run_connection;
    destruct (filter (fun row => fe_name row =? name) (face_embeddings wk));
    reflexivity.
Qed.

(** Claim C6, amended. [delete_user] returns [True] only when a row of the
    name was there; then the row and all attendance events of the name are
    gone, nothing else is, and the deletion is committed. It returns
    [False] when no row was removed: the name was not found, or the store
    raised and the transaction was rolled back. On a healthy connection the
    boolean tells whether the name was found. *)
Theorem delete_user_cascades (name : string) (c : connection) :
  let out := delete_user name c in
  (fst out = inl true ->
     rows_named name (identities c) <> []
     /\ rows_named name (identities (snd out)) = []
     /\ events_of name (attendance (working (snd out))) = []
     /\ identities (snd out)
        = filter (fun row => negb (fe_name row =? name)) (identities c)
     /\ attendance (working (snd out))
        = filter (fun ev => negb (at_user_name ev =? name)) (attendance (working c))
     /\ committed (snd out) = working (snd out))
  /\ (fst out = inl false ->
        (rows_named name (identities c) = []
         /\ identities (snd out) = identities c)
        \/ (working (snd out) = committed c /\ committed (snd out) = committed c))
  /\ (healthy c ->
        fst out = inl (match rows_named name (identities c) with
                       | [] => false
                       | _ :: _ => true
                       end)).
Proof.
  intros out. pose proof (delete_user_outcome name c) as H. cbv zeta in H.
  subst out.
  split; [ | split].
  - intros Ht. rewrite Ht in H. destruct H as [Hk [Hw [Hc _]]].
    unfold identities. rewrite Hw. simpl.
    split; [exact Hk | ]. split; [apply filter_negb_filter | ].
    split; [apply filter_negb_filter | ]. repeat split; auto.
    rewrite Hc, Hw. reflexivity.
  - intros Hf. rewrite Hf in H. destruct H as [[Hk [Hw Hc]] | H]; [left | right; exact H].
    split; [exact Hk | ]. unfold identities. rewrite Hw. simpl.
    apply filter_negb_id. exact Hk.
  - apply delete_user_healthy.
Qed.

Lemma delete_user_cascades_witness :
  fst (delete_user "alice" (db_handler (alice_world []))) = inl true
  /\ rows_named "alice"
       (identities (snd (delete_user "alice" (db_handler (alice_world []))))) = []
  /\ events_of "alice"
       (attendance
          (working (snd (delete_user "alice" (db_handler (alice_world []))))))
     = [].
Proof.
  assert (Hh : healthy (db_handler (alice_world [])))
    by (repeat split; constructor).
  destruct (delete_user_cascades "alice" (db_handler (alice_world [])))
    as [H1 [_ H3]].
  specialize (H3 Hh). simpl in H3.
  destruct (H1 H3) as [_ [H4 [H5 _]]].
  split; [exact H3 | ]. split; [exact H4 | exact H5].
Defined.

(** Claim C6 as stated says that [False] means "not found". [False] is
    also what a refused [DELETE] gives, while the identity was found and is
    still there. *)
Lemma delete_user_false_though_found :
  fst (delete_user "alice" (db_handler (alice_world [Some StatementError])))
  = inl false
  /\ rows_named "alice" (identities (db_handler (alice_world [Some StatementError])))
     <> []
  /\ rows_named "alice"
       (identities
          (snd (delete_user "alice"
                  (db_handler (alice_world [Some StatementError])))))
     <> [].
Proof. repeat split; discriminate. Qed.

(** Claim C7. When the connection is lost during the statement,
    [store_embedding], [store_multiple_embeddings] and [log_attendance] do
    not return [False]: the [rollback] of their handler runs on the closed
    connection and raises [InterfaceError], which leaves the method. *)
Theorem lost_connection_escapes_store_methods :
  fst (store_embedding 0 "alice" [1%R; 0%R]
         (connect empty_tables [Some ConnectionLost])) = inr InterfaceError
  /\ fst (store_multiple_embeddings 0
            [ {| data_name := "alice"; data_embedding := [1%R; 0%R] |} ]
            (connect empty_tables [Some ConnectionLost])) = inr InterfaceError
  /\ fst (log_attendance 0 "alice" "checkin" office_latitude office_longitude
            (connect (alice_tables [1%R; 0%R]) [Some ConnectionLost]))
     = inr InterfaceError.
Proof. repeat split. Qed.

End DeleteFacts.

(** ** The range and the periods of the haversine distance *)

Section HaversineRange.

Import Geofence.
Local Open Scope R_scope.

Lemma atan_nonneg (x : R) : 0 <= x -> 0 <= atan x.
Proof.
  intros [H | <-].
  - rewrite <- atan_0. left. apply atan_increasing. exact H.
  - rewrite atan_0. lra.
Qed.

(** On the closed first quadrant [atan2] is between 0 and a quarter turn. *)
Lemma atan2_quadrant (y x : R) :
  0 <= y -> 0 <= x -> 0 <= Math.atan2 y x <= PI / 2.
Proof.
  intros Hy Hx. unfold Math.atan2. pose proof PI_RGT_0 as Hpi.
  destruct (Rlt_dec 0 x) as [Hpos | Hnpos].
  - assert (Hq : 0 <= y / x).
    { unfold Rdiv. apply Rmult_le_pos; [exact Hy | ].
      left. apply Rinv_0_lt_compat. exact Hpos. }
    pose proof (atan_nonneg _ Hq). pose proof (atan_bound (y / x)). lra.
  - destruct (Rlt_dec x 0); [lra | ].
    destruct (Rlt_dec 0 y); [lra | ].
    destruct (Rlt_dec y 0); lra.
Qed.

(** X1. The haversine distance is never negative and never more than
    [6371 * 1000 * PI] metres, half the circumference of a sphere of radius
    6371 km. *)
Theorem haversine_range (lat1 lon1 lat2 lon2 : R) :
  0 <= haversine lat1 lon1 lat2 lon2 <= 6371 * 1000 * PI.
Proof.
  rewrite haversine_unfold.
  pose proof (haversine_a_bounds lat1 lon1 lat2 lon2) as [Ha0 Ha1].
  pose proof (atan2_quadrant (sqrt (haversine_a lat1 lon1 lat2 lon2))
                (sqrt (1 - haversine_a lat1 lon1 lat2 lon2))
                (sqrt_pos _) (sqrt_pos _)) as [H0 H1].
  split; nra.
Qed.

Lemma haversine_a_turn (lat1 lon1 lat2 lon2 : R) (k : nat) :
  haversine_a lat1 (lon1 + 360 * INR k) lat2 lon2 = haversine_a lat1 lon1 lat2 lon2.
Proof.
  unfold haversine_a. cbv zeta.
  rewrite (Rmult_assoc _ (sin (Math.radians (lon2 - (lon1 + 360 * INR k)) / 2))).
  rewrite (Rmult_assoc _ (sin (Math.radians (lon2 - lon1) / 2))).
  rewrite !sin_half_sqr.
  rewrite <- (cos_period (Math.radians (lon2 - (lon1 + 360 * INR k))) k).
  replace (Math.radians (lon2 - (lon1 + 360 * INR k)) + 2 * INR k * PI)
    with (Math.radians (lon2 - lon1)) by (unfold Math.radians; field).
  reflexivity.
Qed.

(** X2. The haversine distance does not change when one of the two
    longitudes is moved by whole turns of 360 degrees, nor when both
    longitudes are shifted by the same angle. *)
Theorem haversine_longitude_turns (lat1 lon1 lat2 lon2 shift : R) (k : nat) :
  haversine lat1 (lon1 + 360 * INR k) lat2 lon2 = haversine lat1 lon1 lat2 lon2
  /\ haversine lat1 lon1 lat2 (lon2 + 360 * INR k) = haversine lat1 lon1 lat2 lon2
  /\ haversine lat1 (lon1 + shift) lat2 (lon2 + shift)
     = haversine lat1 lon1 lat2 lon2.
Proof.
  split; [ | split].
  - rewrite !haversine_unfold, haversine_a_turn. reflexivity.
  - rewrite (haversine_sym lat1 lon1 lat2 (lon2 + 360 * INR k)).
    rewrite !haversine_unfold, haversine_a_turn.
    rewrite <- !haversine_unfold. apply haversine_sym.
  - unfold haversine. cbv zeta.
    replace (lon2 + shift - (lon1 + shift)) with (lon2 - lon1) by lra.
    reflexivity.
Qed.

End HaversineRange.

(** ** Descending orders and aggregates *)

Section DescFacts.

Import FaceVector Props.

Variable A : Type.
Variable key : A -> Z.

Lemma insert_desc_perm (x : A) (l : list A) :
  Permutation (insert_desc key x l) (x :: l).
Proof.
  induction l as [ | y l IH]; simpl; auto.
  destruct (key y <=? key x)%Z; auto.
  rewrite IH. apply perm_swap.
Qed.

Lemma order_by_desc_perm (l : list A) : Permutation (order_by_desc key l) l.
Proof.
  induction l as [ | x l IH]; simpl; auto.
  rewrite insert_desc_perm. auto.
Qed.

Lemma insert_desc_sorted (x : A) (l : list A) :
  StronglySorted (key_ge key) l -> StronglySorted (key_ge key) (insert_desc key x l).
Proof.
  induction l as [ | y l IH]; simpl; intros Hs.
  - constructor; auto.
  - inversion Hs as [ | y' l' Hl Hy]; subst.
    destruct (key y <=? key x)%Z eqn:E.
    + apply Z.leb_le in E. constructor; auto. constructor; auto.
      eapply Forall_impl; [ | exact Hy]. unfold key_ge. intros z Hz. lia.
    + apply Z.leb_gt in E. constructor; auto.
      eapply Permutation_Forall.
      * symmetry. apply insert_desc_perm.
      * constructor; auto. unfold key_ge. lia.
Qed.

Lemma order_by_desc_sorted (l : list A) :
  StronglySorted (key_ge key) (order_by_desc key l).
Proof.
  induction l as [ | x l IH]; simpl.
  - constructor.
  - apply insert_desc_sorted. exact IH.
Qed.

(** Sorted rows with distinct keys are strictly sorted. *)
Lemma sorted_distinct_keys (l : list A) :
  NoDup (map key l) -> StronglySorted (key_ge key) l ->
  StronglySorted (key_gt key) l.
Proof.
  induction l as [ | x l IH]; simpl; intros Hn Hs; [constructor | ].
  inversion Hn as [ | k ks Hnin Hn']; subst.
  inversion Hs as [ | x' l' Hl Hx]; subst.
  constructor; auto.
  apply Forall_forall. intros y Hy. rewrite Forall_forall in Hx.
  specialize (Hx y Hy). unfold key_ge in Hx. unfold key_gt.
  assert (key y <> key x).
  { intros Heq. apply Hnin. rewrite <- Heq. apply in_map. exact Hy. }
  lia.
Qed.

(** The first row in descending order carries the greatest key. *)
Lemma first_desc (l : list A) :
  match hd_error (firstn 1 (order_by_desc key l)) with
  | Some x => In x l /\ forall y, In y l -> (key y <= key x)%Z
  | None => l = []
  end.
Proof.
  pose proof (order_by_desc_perm l) as Hp.
  pose proof (order_by_desc_sorted l) as Hs.
  destruct (order_by_desc key l) as [ | x rest]; simpl.
  - apply Permutation_nil. exact Hp.
  - split.
    + apply (Permutation_in _ Hp). left. reflexivity.
    + intros y Hy. apply (Permutation_in _ (Permutation_sym Hp)) in Hy.
      inversion Hs as [ | x' l' Hl Hx]; subst.
      destruct Hy as [<- | Hy]; [lia | ].
      rewrite Forall_forall in Hx. apply (Hx y Hy).
Qed.

End DescFacts.

Section AggregateFacts.

Import FaceVector Props.
Local Open Scope string_scope.

(** The values that [MAX] does not skip. *)
Lemma sql_max_latest (values : list (option Z)) :
  latest_of (flat_map (fun v => match v with Some t => [t] | None => [] end) values)
            (sql_max values).
Proof.
  induction values as [ | [t | ] values IH]; simpl.
  - reflexivity.
  - destruct (sql_max values) as [m | ]; simpl in *.
    + destruct IH as [Hin Hmax]. split.
      * destruct (Z.max_spec t m) as [[_ ->] | [_ ->]]; auto.
      * intros t' [<- | Ht']; [lia | ]. specialize (Hmax t' Ht'). lia.
    + rewrite IH. split; [left; reflexivity | ].
      intros t' [<- | []]. lia.
  - exact IH.
Qed.

Lemma case_when_times (event_type : string) (events : list attendance_event) :
  flat_map (fun v => match v with Some t => [t] | None => [] end)
           (map (case_when event_type) events)
  = map at_event_time
        (filter (fun ev => at_event_type ev =? event_type) events).
Proof.
  induction events as [ | ev events IH]; simpl; auto.
  unfold case_when at 1. destruct (at_event_type ev =? event_type); simpl;
    rewrite IH; reflexivity.
Qed.

Lemma filter_filter {B : Type} (f g : B -> bool) (l : list B) :
  filter f (filter g l) = filter (fun x => g x && f x) l.
Proof.
  induction l as [ | x l IH]; simpl; auto.
  destruct (g x); simpl; [destruct (f x) | ]; rewrite IH; reflexivity.
Qed.

Lemma filter_ext_eq {B : Type} (f g : B -> bool) (l : list B) :
  (forall x, f x = g x) -> filter f l = filter g l.
Proof. intros H. apply filter_ext. exact H. Qed.

(** The events of a day, of a type, among the events of a user. *)
Lemma events_on_split (user_name event_type : string) (day : Z)
  (events : list attendance_event) :
  filter (fun ev => at_event_type ev =? event_type)
    (filter (fun ev => (DATE (at_event_time ev) =? day)%Z)
       (filter (fun ev => at_user_name ev =? user_name) events))
  = events_on user_name event_type day events.
Proof.
  unfold events_on. rewrite !filter_filter. apply filter_ext.
  intros ev. destruct (at_user_name ev =? user_name);
    destruct (DATE (at_event_time ev) =? day)%Z;
    destruct (at_event_type ev =? event_type); reflexivity.
Qed.

End AggregateFacts.

(** ** The methods that read *)

Section ReadFacts.

Import Py FaceVector Props.
Local Open Scope py_scope.
Local Open Scope string_scope.

(** The methods that read a list: they answer with the rows of their
    query or, when the cursor or the query raises, with no row; they leave
    the tables alone. *)
Lemma read_outcome {A : Type} (q : tables -> list A) (c : connection) :
  let out := try_except
               (cursor ;; results <- execute (query q) ;; ret results)
               (fun e => ret []) c in
  working (snd out) = working c /\ committed (snd out) = committed c
  /\ (fst out = inl (q (working c)) \/ fst out = inl [])
  /\ (healthy c -> fst out = inl (q (working c)))
  /\ (query_raises c -> fst out = inl []).
Proof.
  destruct c as [cm wk s1 s2 cl sch ab].
  destruct cl.
  - simpl. repeat split; auto. intros [[H _] _]. discriminate.
  - destruct ab; destruct sch as [ | [[ | ] | ] sch]; simpl; repeat split; auto;
      try (intros [[_ H] _]; simpl in H; discriminate);
      try (intros [_ H]; simpl in H; inversion H; discriminate);
      try (intros [H | [H | [i [s H]]]]; simpl in H; discriminate).
Qed.

(** X3. [retrieve_attendance] never raises and leaves the tables as they
    are. Its answer is in descending order of the event time and every
    record of it is an event of the user. On a healthy connection the answer
    holds the events of the user, each once; when the cursor or the query
    raises, the answer is the empty list. *)
Theorem retrieve_attendance_sorted (user_name : string) (c : connection) :
  exists records,
    fst (retrieve_attendance user_name c) = inl records
    /\ working (snd (retrieve_attendance user_name c)) = working c
    /\ committed (snd (retrieve_attendance user_name c)) = committed c
    /\ StronglySorted (fun r1 r2 => (ar_event_time r2 <= ar_event_time r1)%Z) records
    /\ (forall r, In r records ->
          exists ev, In ev (events_of user_name (attendance (working c)))
                     /\ ar_event_type r = at_event_type ev
                     /\ ar_event_time r = at_event_time ev)
    /\ (healthy c ->
          Permutation records
            (map (fun ev => {| ar_event_type := at_event_type ev;
                               ar_event_time := at_event_time ev |})
                 (events_of user_name (attendance (working c)))))
    /\ (query_raises c -> records = []).
Proof.
  destruct (read_outcome (select_attendance user_name) c)
    as [Hw [Hc [Hr [Hh Hq]]]].
  fold (retrieve_attendance user_name) in Hw, Hc, Hr, Hh, Hq.
  assert (Hsel :
    StronglySorted (fun r1 r2 => (ar_event_time r2 <= ar_event_time r1)%Z)
      (select_attendance user_name (working c))
    /\ (forall r, In r (select_attendance user_name (working c)) ->
          exists ev, In ev (events_of user_name (attendance (working c)))
                     /\ ar_event_type r = at_event_type ev
                     /\ ar_event_time r = at_event_time ev)
    /\ Permutation (select_attendance user_name (working c))
         (map (fun ev => {| ar_event_type := at_event_type ev;
                            ar_event_time := at_event_time ev |})
              (events_of user_name (attendance (working c))))).
  { unfold select_attendance, events_of. split; [ | split].
    - apply (StronglySorted_map _ _ _ (key_ge at_event_time)).
      + unfold key_ge. simpl. auto.
      + apply order_by_desc_sorted.
    - intros r Hr'. apply in_map_iff in Hr'. destruct Hr' as [ev [<- Hin]].
      exists ev. split; [ | auto].
      apply (Permutation_in _ (order_by_desc_perm _ at_event_time _)). exact Hin.
    - apply Permutation_map. apply order_by_desc_perm. }
  destruct Hsel as [Hs1 [Hs2 Hs3]].
  destruct Hr as [Hr | Hr].
  - exists (select_attendance user_name (working c)).
    repeat split; auto.
    intros Hraise. specialize (Hq Hraise). rewrite Hr in Hq.
    injection Hq as Hq. exact Hq.
  - exists []. repeat split; auto.
    + constructor.
    + intros r [].
    + intros Hhealthy. specialize (Hh Hhealthy). rewrite Hr in Hh.
      injection Hh as Hh. rewrite <- Hh in Hs3. exact Hs3.
Qed.

Lemma select_daily_attendance_spec (user_name : string) (t : tables) :
  let report := select_daily_attendance user_name t in
  StronglySorted (fun r1 r2 => (attendance_date r2 < attendance_date r1)%Z) report
  /\ (forall row, In row report ->
        (exists ev, In ev (events_of user_name (attendance t))
                    /\ DATE (at_event_time ev) = attendance_date row)
        /\ latest_of (map at_event_time
                        (events_on user_name "checkin" (attendance_date row)
                           (attendance t)))
                     (checkin_time row)
        /\ latest_of (map at_event_time
                        (events_on user_name "checkout" (attendance_date row)
                           (attendance t)))
                     (checkout_time row))
  /\ (forall ev, In ev (events_of user_name (attendance t)) ->
        exists row, In row report
                    /\ attendance_date row = DATE (at_event_time ev)).
Proof.
  unfold select_daily_attendance, events_of.
  set (events := filter (fun ev => at_user_name ev =? user_name) (attendance t)).
  set (mk := fun group : Z * list attendance_event =>
               {| attendance_date := fst group;
                  checkin_time := sql_max (map (case_when "checkin") (snd group));
                  checkout_time := sql_max (map (case_when "checkout") (snd group)) |}).
  set (rows := map mk (group_by_date events)).
  assert (Hdates : map attendance_date rows
                   = nodup Z.eq_dec (map (fun ev => DATE (at_event_time ev)) events)).
  { unfold rows, group_by_date. rewrite !map_map. simpl. apply map_id. }
  cbv zeta. split; [ | split].
  - apply (sorted_distinct_keys _ attendance_date).
    + apply (Permutation_NoDup
               (l := map attendance_date rows)).
      * apply Permutation_map. symmetry. apply order_by_desc_perm.
      * rewrite Hdates. apply NoDup_nodup.
    + apply order_by_desc_sorted.
  - intros row Hin.
    apply (Permutation_in _ (order_by_desc_perm _ attendance_date rows)) in Hin.
    unfold rows, group_by_date in Hin. rewrite map_map in Hin.
    apply in_map_iff in Hin. destruct Hin as [day [<- Hday]].
    apply nodup_In in Hday. apply in_map_iff in Hday.
    destruct Hday as [ev [Hev Hin]]. simpl. split; [ | split].
    + exists ev. auto.
    + pose proof (sql_max_latest
                    (map (case_when "checkin")
                       (filter (fun ev0 => (DATE (at_event_time ev0) =? day)%Z)
                          events))) as H.
      rewrite case_when_times in H. unfold events in H.
      rewrite events_on_split in H. exact H.
    + pose proof (sql_max_latest
                    (map (case_when "checkout")
                       (filter (fun ev0 => (DATE (at_event_time ev0) =? day)%Z)
                          events))) as H.
      rewrite case_when_times in H. unfold events in H.
      rewrite events_on_split in H. exact H.
  - intros ev Hin.
    exists (mk (DATE (at_event_time ev),
                filter (fun ev0 => (DATE (at_event_time ev0)
                                    =? DATE (at_event_time ev))%Z) events)).
    split; [ | reflexivity].
    apply (Permutation_in _ (Permutation_sym (order_by_desc_perm _ attendance_date rows))).
    unfold rows, group_by_date. rewrite map_map.
    apply in_map_iff. exists (DATE (at_event_time ev)). split; [reflexivity | ].
    apply nodup_In. apply in_map_iff. exists ev. auto.
Qed.

(** X4. [get_user_attendance_report] never raises and leaves the tables
    as they are. Its rows are in strictly descending order of the day, so no
    day has two rows. The day of a row is the day of some event of the user,
    and the check-in (check-out) time of the row is the latest check-in
    (check-out) event of the user on that day, or [None] when the user has
    none on that day. On a healthy connection every day on which the user
    has an event has a row; when the cursor or the query raises, the report
    is empty. *)
Theorem attendance_report_by_day (user_name : string) (c : connection) :
  exists report,
    fst (get_user_attendance_report user_name c) = inl report
    /\ working (snd (get_user_attendance_report user_name c)) = working c
    /\ committed (snd (get_user_attendance_report user_name c)) = committed c
    /\ StronglySorted (fun r1 r2 => (attendance_date r2 < attendance_date r1)%Z)
         report
    /\ (forall row, In row report ->
          (exists ev, In ev (events_of user_name (attendance (working c)))
                      /\ DATE (at_event_time ev) = attendance_date row)
          /\ latest_of (map at_event_time
                          (events_on user_name "checkin" (attendance_date row)
                             (attendance (working c))))
                       (checkin_time row)
          /\ latest_of (map at_event_time
                          (events_on user_name "checkout" (attendance_date row)
                             (attendance (working c))))
                       (checkout_time row))
    /\ (healthy c ->
        forall ev, In ev (events_of user_name (attendance (working c))) ->
          exists row, In row report
                      /\ attendance_date row = DATE (at_event_time ev))
    /\ (query_raises c -> report = []).
Proof.
  destruct (read_outcome (select_daily_attendance user_name) c)
    as [Hw [Hc [Hr [Hh Hq]]]].
  fold (get_user_attendance_report user_name) in Hw, Hc, Hr, Hh, Hq.
  destruct (select_daily_attendance_spec user_name (working c)) as [Hs1 [Hs2 Hs3]].
  destruct Hr as [Hr | Hr].
  - exists (select_daily_attendance user_name (working c)).
    repeat split; auto; try (apply Hs2; assumption).
    intros Hraise. specialize (Hq Hraise). rewrite Hr in Hq.
    injection Hq as Hq. exact Hq.
  - exists []. repeat split; auto; try contradiction.
    + constructor.
    + intros Hhealthy. specialize (Hh Hhealthy). rewrite Hr in Hh.
      injection Hh as Hh. rewrite <- Hh in Hs3. exact Hs3.
Qed.

(** X5. [retrieve_all_data] never raises and leaves the tables as they
    are. Every summary of its answer copies the id, name, embedding and
    creation time of an identity, with the latest check-in and the latest
    check-out event of that name over all days, [None] where the name has
    none. On a healthy connection there is one summary for each identity, in
    the order of the table; when the cursor or the query raises, the answer
    is the empty list. *)
Theorem retrieve_all_data_latest (c : connection) :
  exists summaries,
    fst (retrieve_all_data c) = inl summaries
    /\ working (snd (retrieve_all_data c)) = working c
    /\ committed (snd (retrieve_all_data c)) = committed c
    /\ (forall s, In s summaries ->
          (exists row, In row (identities c)
                       /\ su_id s = fe_id row /\ su_name s = fe_name row
                       /\ su_embedding s = fe_embedding row
                       /\ su_created_at s = fe_created_at row)
          /\ latest_of (map at_event_time
                          (filter (fun ev => at_event_type ev =? "checkin")
                             (events_of (su_name s) (attendance (working c)))))
                       (su_latest_checkin s)
          /\ latest_of (map at_event_time
                          (filter (fun ev => at_event_type ev =? "checkout")
                             (events_of (su_name s) (attendance (working c)))))
                       (su_latest_checkout s))
    /\ (healthy c -> map su_name summaries = map fe_name (identities c))
    /\ (query_raises c -> summaries = []).
Proof.
  destruct (read_outcome select_all_data c) as [Hw [Hc [Hr [Hh Hq]]]].
  fold retrieve_all_data in Hw, Hc, Hr, Hh, Hq.
  assert (Hlatest : forall name event_type,
            latest_of (map at_event_time
                         (filter (fun ev => at_event_type ev =? event_type)
                            (events_of name (attendance (working c)))))
                      (latest_event name event_type (working c))).
  { intros name event_type. unfold latest_event, events_of.
    rewrite filter_filter.
    pose proof (first_desc _ at_event_time
                  (filter (fun ev => (at_user_name ev =? name)
                                     && (at_event_type ev =? event_type))
                     (attendance (working c)))) as H.
    destruct (hd_error _) as [ev | ]; simpl.
    - destruct H as [Hin Hmax]. split; [apply in_map; exact Hin | ].
      intros t' Ht'. apply in_map_iff in Ht'. destruct Ht' as [ev' [<- Hin']].
      apply Hmax. exact Hin'.
    - rewrite H. reflexivity. }
  destruct Hr as [Hr | Hr].
  - exists (select_all_data (working c)). repeat split; auto.
    + unfold select_all_data in H. apply in_map_iff in H.
      destruct H as [row [<- Hin]]. exists row. simpl. auto.
    + unfold select_all_data in H. apply in_map_iff in H.
      destruct H as [row [<- Hin]]. simpl. apply Hlatest.
    + unfold select_all_data in H. apply in_map_iff in H.
      destruct H as [row [<- Hin]]. simpl. apply Hlatest.
    + intros _. unfold select_all_data, identities. rewrite map_map. reflexivity.
    + intros Hraise. specialize (Hq Hraise). rewrite Hr in Hq.
      injection Hq as Hq. exact Hq.
  - exists []. repeat split; auto; try contradiction.
    intros Hhealthy. specialize (Hh Hhealthy). rewrite Hr in Hh.
    injection Hh as Hh. unfold select_all_data in Hh.
    unfold identities. destruct (face_embeddings (working c)); [reflexivity | ].
    discriminate.
Qed.



End ReadFacts.

(** ** Writing, then reading *)

Section ComposeFacts.

Import Py FaceVector Props.
Local Open Scope py_scope.
Local Open Scope string_scope.


(** The embedding stored for a name, after an upsert. *)
Lemma embedding_of_upsert (new : face_embedding) (rows : list face_embedding)
  (name : string) :
  embedding_of name (insert_on_conflict_update new rows)
  = if fe_name new =? name then Some (fe_embedding new) else embedding_of name rows.
Proof.
  unfold embedding_of. induction rows as [ | row rows IH]; simpl.
  - destruct (fe_name new =? name); reflexivity.
  - destruct (fe_name row =? fe_name new) eqn:E; simpl.
    + apply String.eqb_eq in E. rewrite E.
      destruct (fe_name new =? name); reflexivity.
    + destruct (fe_name row =? name) eqn:E2; simpl.
      * apply String.eqb_eq in E2. subst name. rewrite String.eqb_sym, E.
        reflexivity.
      * exact IH.
Qed.

(** The same upsert twice is the upsert once. *)
Lemma upsert_twice (new new' : face_embedding) (rows : list face_embedding) :
  fe_name new' = fe_name new -> fe_embedding new' = fe_embedding new ->
  insert_on_conflict_update new' (insert_on_conflict_update new rows)
  = insert_on_conflict_update new rows.
Proof.
  intros Hn He. induction rows as [ | row rows IH]; simpl.
  - rewrite Hn, String.eqb_refl. destruct new; simpl in *. subst. reflexivity.
  - destruct (fe_name row =? fe_name new) eqn:E; simpl.
    + rewrite Hn, E. rewrite He. reflexivity.
    + rewrite Hn, E. rewrite IH. reflexivity.
Qed.

(** X8. On a healthy connection [store_embedding] returns [True] and
    commits; afterwards the name holds the given embedding, every other
    name holds the embedding it held, and the attendance events are
    untouched. Storing the same embedding under the same name once more
    returns [True] and leaves the tables as they are. *)
Theorem store_embedding_then_lookup
  (now now' : Z) (name other : string) (embedding : list R) (c : connection) :
  healthy c ->
  let c1 := snd (store_embedding now name embedding c) in
  let c2 := snd (store_embedding now' name embedding c1) in
  fst (store_embedding now name embedding c) = inl true
  /\ embedding_of name (identities c1) = Some embedding
  /\ (other <> name -> embedding_of other (identities c1) = embedding_of other (identities c))
  /\ attendance (working c1) = attendance (working c)
  /\ committed c1 = working c1
  /\ fst (store_embedding now' name embedding c1) = inl true
  /\ working c2 = working c1.
Proof.
  intros Hh c1 c2.
  destruct (store_embedding_healthy now name embedding c Hh)
    as [d1 [Hs1 [Hh1 [Hw1 Hc1]]]].
  destruct (store_embedding_healthy now' name embedding d1 Hh1)
    as [d2 [Hs2 [Hh2 [Hw2 Hc2]]]].
  subst c1 c2. rewrite Hs1. simpl fst. simpl snd. rewrite Hs2. simpl fst. simpl snd.
  unfold identities. rewrite Hw1. simpl.
  split; [reflexivity | ]. split; [ | split; [ | split; [ | split; [ | split]]]].
  - rewrite embedding_of_upsert. simpl. rewrite String.eqb_refl. reflexivity.
  - intros Hne. rewrite embedding_of_upsert. simpl.
    apply String.eqb_neq in Hne. rewrite String.eqb_sym, Hne. reflexivity.
  - reflexivity.
  - rewrite Hc1, Hw1. reflexivity.
  - reflexivity.
  - rewrite Hw2, Hw1. simpl. rewrite upsert_twice; reflexivity.
Qed.

Lemma upsert_has_row (new : face_embedding) (rows : list face_embedding) :
  exists row, In row (insert_on_conflict_update new rows)
              /\ fe_name row = fe_name new
              /\ fe_embedding row = fe_embedding new.
Proof.
  induction rows as [ | r rows IH]; simpl.
  - exists new. auto.
  - destruct (fe_name r =? fe_name new) eqn:E.
    + apply String.eqb_eq in E. eexists. split; [left; reflexivity | ].
      simpl. auto.
    + destruct IH as [row [Hin H]]. exists row. split; [right; exact Hin | exact H].
Qed.

(** X9. For a distance under which the embedding is similar to itself
    (similarity above 0.9): after [store_embedding] on a healthy connection,
    [vector_search] of the stored embedding is not empty. It returns the
    row of the name with that embedding, unless it returns five rows that
    are all at least as similar. *)
Theorem stored_face_is_found
  (cosine_distance : list R -> list R -> R)
  (now : Z) (name : string) (embedding : list R) (c : connection) :
  healthy c ->
  (1 - cosine_distance embedding embedding > 0.9)%R ->
  exists results,
    fst (vector_search cosine_distance embedding
           (snd (store_embedding now name embedding c))) = inl results
    /\ results <> []
    /\ ((exists r, In r results /\ sr_name r = name /\ sr_embedding r = embedding)
        \/ (List.length results = 5%nat
            /\ Forall (fun r => (sr_similarity r
                                 >= 1 - cosine_distance embedding embedding)%R)
                 results)).
Proof.
  intros Hh Hself.
  destruct (store_embedding_healthy now name embedding c Hh)
    as [c1 [Hs [Hh1 [Hw _]]]].
  rewrite Hs. simpl snd.
  destruct (upsert_has_row
              {| fe_id := face_embeddings_id_seq c; fe_name := name;
                 fe_embedding := embedding; fe_created_at := now |}
              (face_embeddings (working c))) as [row [Hin [Hn He]]].
  simpl in Hn, He.
  assert (Hrow : In row (identities c1)).
  { unfold identities. rewrite Hw. exact Hin. }
  assert (Hclear : (1 - cosine_distance (fe_embedding row) embedding > 0.9)%R)
    by (rewrite He; exact Hself).
  destruct (vector_search_nearest cosine_distance embedding c1 row Hh1 Hrow Hclear)
    as [results [Hr [Hne Hcase]]].
  exists results. split; [exact Hr | ]. split; [exact Hne | ].
  destruct Hcase as [[r [Hr1 [_ [Hr2 Hr3]]]] | [Hlen Hall]].
  - left. exists r. split; [exact Hr1 | ]. split; congruence.
  - right. split; [exact Hlen | ]. rewrite He in Hall. exact Hall.
Qed.

Lemma delete_user_healthy_state (name : string) (c : connection) :
  healthy c ->
  healthy (snd (delete_user name c))
  /\ working (snd (delete_user name c)) = fst (delete_face_embedding name (working c)).
Proof.
  revert c. apply healthy_cases.
  - intros cm wk s1 s2. run_connection. unfold delete_face_embedding.
    destruct (filter (fun row => fe_name row =? name) (face_embeddings wk));
      simpl; (split; [repeat split; constructor | reflexivity]).
  - intros cm wk s1 s2 sch Hs. run_connection.
    destruct sch as [ | [i | ] sch]; [ | inversion Hs; discriminate | ];
      run_connection; unfold delete_face_embedding;
      destruct (filter (fun row => fe_name row =? name) (face_embeddings wk));
      simpl; (split; [split; [split; reflexivity | ] | reflexivity]);
      try constructor; inversion Hs; auto.
Qed.

Lemma embedding_of_none (name : string) (rows : list face_embedding) :
  rows_named name rows = [] -> embedding_of name rows = None.
Proof.
  unfold embedding_of, rows_named. induction rows as [ | row rows IH]; simpl; auto.
  destruct (fe_name row =? name); [discriminate | exact IH].
Qed.

(** X21. On a healthy connection, after [delete_user] of a name that has
    a row: the method has returned [True]; the name holds no embedding;
    [has_checked_in_today] and [has_checked_out_today] of the name answer
    [False]; [retrieve_attendance] and [get_user_attendance_report] of the
    name are empty; [vector_search] returns no row of the name. The events
    and the embedding of every other name are what they were. *)
Theorem delete_user_forgets
  (cosine_distance : list R -> list R -> R) (encoding : list R)
  (now : Z) (name other : string) (c : connection) :
  healthy c ->
  rows_named name (identities c) <> [] ->
  let c1 := snd (delete_user name c) in
  fst (delete_user name c) = inl true
  /\ embedding_of name (identities c1) = None
  /\ fst (has_checked_in_today now name c1) = inl false
  /\ fst (has_checked_out_today now name c1) = inl false
  /\ fst (retrieve_attendance name c1) = inl []
  /\ fst (get_user_attendance_report name c1) = inl []
  /\ (exists results,
        fst (vector_search cosine_distance encoding c1) = inl results
        /\ Forall (fun r => sr_name r <> name) results)
  /\ (other <> name ->
      events_of other (attendance (working c1))
      = events_of other (attendance (working c))
      /\ embedding_of other (identities c1) = embedding_of other (identities c)).
Proof.
  intros Hh Hk c1.
  pose proof (delete_user_healthy name c Hh) as Hr.
  destruct (delete_user_healthy_state name c Hh) as [Hh1 Hw].
  fold c1 in Hh1, Hw.
  assert (Hnone : events_of name (attendance (working c1)) = []).
  { rewrite Hw. simpl. apply filter_negb_filter. }
  assert (Hrows : rows_named name (identities c1) = []).
  { unfold identities. rewrite Hw. simpl. apply filter_negb_filter. }
  split.
  { rewrite Hr. destruct (rows_named name (identities c)); congruence. }
  split; [apply embedding_of_none; exact Hrows | ].
  split.
  { rewrite (has_checked_in_today_healthy _ _ c1 Hh1).
    rewrite (events_on_of _ "checkin" _ _ Hnone). reflexivity. }
  split.
  { rewrite (has_checked_out_today_healthy _ _ c1 Hh1).
    rewrite (events_on_of _ "checkout" _ _ Hnone). reflexivity. }
  split.
  { destruct (read_outcome (select_attendance name) c1) as [_ [_ [_ [H _]]]].
    fold (retrieve_attendance name) in H. rewrite (H Hh1).
    unfold select_attendance. unfold events_of in Hnone. rewrite Hnone. reflexivity. }
  split.
  { destruct (read_outcome (select_daily_attendance name) c1) as [_ [_ [_ [H _]]]].
    fold (get_user_attendance_report name) in H. rewrite (H Hh1).
    unfold select_daily_attendance. unfold events_of in Hnone. rewrite Hnone.
    reflexivity. }
  split.
  { rewrite (vector_search_healthy cosine_distance encoding c1 Hh1). simpl fst.
    eexists. split; [reflexivity | ].
    destruct (select_nearest_spec cosine_distance encoding (working c1))
      as [_ [Hall _]].
    eapply Forall_impl; [ | exact Hall]. simpl.
    intros r [_ [row [Hin [_ [Hn _]]]]] Heq.
    assert (Hin' : In row (rows_named name (identities c1))).
    { unfold rows_named. apply filter_In. split; [exact Hin | ].
      apply String.eqb_eq. congruence. }
    rewrite Hrows in Hin'. contradiction. }
  intros Hne. apply String.eqb_neq in Hne. split.
  - rewrite Hw. simpl. unfold events_of. rewrite filter_filter.
    apply filter_ext. intros ev.
    destruct (at_user_name ev =? other) eqn:E; [ | apply andb_false_r].
    apply String.eqb_eq in E. rewrite E, Hne. reflexivity.
  - unfold identities. rewrite Hw. simpl. unfold embedding_of. f_equal.
    induction (face_embeddings (working c)) as [ | row rows IH]; simpl; auto.
    destruct (fe_name row =? name) eqn:E; simpl.
    + apply String.eqb_eq in E. rewrite E, String.eqb_sym, Hne. exact IH.
    + destruct (fe_name row =? other); [reflexivity | exact IH].
Qed.

(** What a list of upserts assigns to a name. *)
Lemma assigned_absent (name : string) (values : list (string * list R))
  (before : option (list R)) :
  ~ In name (map fst values) -> assigned name values before = before.
Proof.
  unfold assigned. revert before.
  induction values as [ | [n e] values IH]; intros before Hn; simpl; auto.
  simpl in Hn. destruct (n =? name) eqn:E.
  - apply String.eqb_eq in E. exfalso. apply Hn. left. exact E.
  - apply IH. intros H. apply Hn. right. exact H.
Qed.

Lemma assigned_present (name : string) (embedding : list R)
  (values : list (string * list R)) (before : option (list R)) :
  NoDup (map fst values) -> In (name, embedding) values ->
  assigned name values before = Some embedding.
Proof.
  unfold assigned. revert before.
  induction values as [ | [n e] values IH]; intros before Hnd Hin; simpl.
  - contradiction.
  - simpl in Hnd. inversion Hnd as [ | x xs Hnin Hnd']; subst.
    destruct Hin as [Heq | Hin].
    + injection Heq as -> ->. rewrite String.eqb_refl.
      apply (assigned_absent name values (Some embedding)). exact Hnin.
    + apply IH; assumption.
Qed.

Lemma assigned_app (name : string) (l1 l2 : list (string * list R))
  (before : option (list R)) :
  assigned name (l1 ++ l2) before = assigned name l2 (assigned name l1 before).
Proof. unfold assigned. apply fold_left_app. Qed.

(** One page on the server: every row is upserted in turn. *)
Lemma insert_page_run (now : Z) (page : list (string * list R)) (c : connection) :
  exists c',
    insert_page now page c = (inl tt, c')
    /\ (closed c' = closed c /\ aborted c' = aborted c)
    /\ schedule c' = schedule c
    /\ committed c' = committed c
    /\ attendance (working c') = attendance (working c)
    /\ forall name,
         embedding_of name (face_embeddings (working c'))
         = assigned name page (embedding_of name (face_embeddings (working c))).
Proof.
  revert c. induction page as [ | [n e] page IH]; intros c.
  - exists c. simpl. repeat split; auto.
  - cbn [insert_page].
    set (c1 := set_working
                 (fst (upsert_face_embedding
                         {| fe_id := face_embeddings_id_seq c; fe_name := n;
                            fe_embedding := e; fe_created_at := now |} (working c)))
                 {| committed := committed c; working := working c;
                    face_embeddings_id_seq := (face_embeddings_id_seq c + 1)%Z;
                    attendance_id_seq := attendance_id_seq c;
                    closed := closed c; schedule := schedule c;
                    aborted := aborted c |}).
    destruct (IH c1) as [c' [Hrun [[Hcl Hab] [Hsch [Hcm [Hat Hemb]]]]]].
    exists c'. split; [ | split; [ | split; [ | split; [ | split]]]]; auto.
    intros name. rewrite Hemb. unfold c1. simpl.
    rewrite embedding_of_upsert. simpl. unfold assigned. simpl.
    destruct (n =? name); reflexivity.
Qed.

Lemma execute_pages_healthy (now : Z) (pages : list (list (string * list R)))
  (c : connection) :
  healthy c ->
  exists c',
    execute_pages now pages c = (inl tt, c')
    /\ healthy c'
    /\ committed c' = committed c
    /\ attendance (working c') = attendance (working c)
    /\ forall name,
         embedding_of name (face_embeddings (working c'))
         = assigned name (List.concat pages)
             (embedding_of name (face_embeddings (working c))).
Proof.
  revert c. induction pages as [ | page pages IH]; intros c Hh.
  - exists c. simpl. repeat split; auto; apply Hh.
  - cbn [execute_pages]. unfold bind at 1.
    rewrite (execute_healthy (insert_page now page) c Hh).
    destruct (insert_page_run now page (after_round_trip c))
      as [c1 [Hrun [[Hcl Hab] [Hsch [Hcm [Hat Hemb]]]]]].
    rewrite Hrun.
    assert (Hh1 : healthy c1).
    { destruct (healthy_after_round_trip c Hh) as [[H1 H2] H3].
      split; [split | ]; [rewrite Hcl; exact H1 | rewrite Hab; exact H2 | ].
      rewrite Hsch. exact H3. }
    destruct (IH c1 Hh1) as [c' [Hrun' [Hh' [Hcm' [Hat' Hemb']]]]].
    exists c'. split; [exact Hrun' | ]. split; [exact Hh' | ].
    split; [rewrite Hcm', Hcm; reflexivity | ].
    split; [rewrite Hat', Hat; reflexivity | ].
    intros name. rewrite Hemb', Hemb. simpl. rewrite assigned_app. reflexivity.
Qed.

Lemma store_multiple_embeddings_healthy
  (now : Z) (embeddings_data : list embedding_data) (c : connection) :
  healthy c ->
  exists c',
    store_multiple_embeddings now embeddings_data c = (inl true, c')
    /\ healthy c'
    /\ committed c' = working c'
    /\ attendance (working c') = attendance (working c)
    /\ forall name,
         embedding_of name (face_embeddings (working c'))
         = assigned name
             (map (fun data => (data_name data, data_embedding data)) embeddings_data)
             (embedding_of name (face_embeddings (working c))).
Proof.
  intros Hh.
  set (values := map (fun data => (data_name data, data_embedding data))
                     embeddings_data).
  destruct (execute_pages_healthy now (paginate (List.length values) 100 values) c Hh)
    as [c1 [Hrun [Hh1 [Hcm [Hat Hemb]]]]].
  rewrite paginate_concat in Hemb by lia.
  unfold store_multiple_embeddings, execute_values, try_except, bind.
  fold values. cbv beta.
  rewrite (cursor_healthy c Hh). cbv beta iota. rewrite Hrun. cbv beta iota.
  rewrite (commit_healthy c1 Hh1). cbv beta iota.
  eexists. split; [reflexivity | ].
  split; [exact (healthy_after_round_trip c1 Hh1) | ].
  split; [reflexivity | ]. split; [exact Hat | exact Hemb].
Qed.

(** X10. On a healthy connection [store_multiple_embeddings] of entries
    with pairwise distinct names returns [True] and commits; afterwards
    every name of the batch holds the embedding of its entry, every name
    outside the batch holds the embedding it held, and the attendance events
    are untouched. *)
Theorem store_multiple_embeddings_then_lookup
  (now : Z) (embeddings_data : list embedding_data) (c : connection) :
  healthy c ->
  NoDup (map data_name embeddings_data) ->
  let c' := snd (store_multiple_embeddings now embeddings_data c) in
  fst (store_multiple_embeddings now embeddings_data c) = inl true
  /\ committed c' = working c'
  /\ attendance (working c') = attendance (working c)
  /\ (forall data, In data embeddings_data ->
        embedding_of (data_name data) (identities c') = Some (data_embedding data))
  /\ (forall name, ~ In name (map data_name embeddings_data) ->
        embedding_of name (identities c') = embedding_of name (identities c)).
Proof.
  intros Hh Hnd c'. subst c'.
  destruct (store_multiple_embeddings_healthy now embeddings_data c Hh)
    as [c' [Hrun [_ [Hcm [Hat Hemb]]]]].
  rewrite Hrun. simpl fst. simpl snd.
  assert (Hnames : map fst (map (fun data => (data_name data, data_embedding data))
                              embeddings_data)
                   = map data_name embeddings_data).
  { rewrite map_map. reflexivity. }
  split; [reflexivity | ]. split; [exact Hcm | ]. split; [exact Hat | ].
  unfold identities. split.
  - intros data Hin. rewrite Hemb.
    apply assigned_present.
    + rewrite Hnames. exact Hnd.
    + apply in_map_iff. exists data. auto.
  - intros name Hn. rewrite Hemb. apply assigned_absent.
    rewrite Hnames. exact Hn.
Qed.

End ComposeFacts.

(** ** The handlers at their edges *)

Section HandlerEdges.

Import Py FaceVector Main Props.
Local Open Scope py_scope.
Local Open Scope string_scope.

(** X12. Inside the geofence, [process_checkin] and [process_checkout]
    answer ["Face not recognized."] when the face processor finds no face
    and when the first face it finds is named ["Unknown"]; when the face
    processor raises, they answer with the message of the exception. In
    these cases the store is not called. Only the first face counts: the
    faces after it do not change what the handlers do. *)
Theorem face_not_recognized
  (now : Z) (face : detected_face) (faces faces' : list detected_face) (e : exn)
  (latitude longitude : R) (w : world) :
  Geofence.is_within_geofence latitude longitude = true ->
  let seen := {| db_handler := db_handler w;
                 effects := effects w ++ [FaceProcessing] |} in
  let unknown := {| success := false; message := "Face not recognized." |} in
  let failed := {| success := false; message := str e |} in
  process_checkin now (inl []) (Some latitude) (Some longitude) w = (inl unknown, seen)
  /\ process_checkout now (inl []) (Some latitude) (Some longitude) w
     = (inl unknown, seen)
  /\ (face_name face = "Unknown" ->
      process_checkin now (inl (face :: faces)) (Some latitude) (Some longitude) w
      = (inl unknown, seen)
      /\ process_checkout now (inl (face :: faces)) (Some latitude) (Some longitude) w
         = (inl unknown, seen))
  /\ process_checkin now (inr e) (Some latitude) (Some longitude) w = (inl failed, seen)
  /\ process_checkout now (inr e) (Some latitude) (Some longitude) w
     = (inl failed, seen)
  /\ process_checkin now (inl (face :: faces)) (Some latitude) (Some longitude) w
     = process_checkin now (inl (face :: faces')) (Some latitude) (Some longitude) w
  /\ process_checkout now (inl (face :: faces)) (Some latitude) (Some longitude) w
     = process_checkout now (inl (face :: faces')) (Some latitude) (Some longitude) w.
Proof.
  intros Hgeo seen unknown failed. subst seen unknown failed.
  run_handler. rewrite Hgeo. run_handler.
  split; [reflexivity | ]. split; [reflexivity | ].
  split; [intros Hu; rewrite Hu; split; reflexivity | ].
  split; [reflexivity | ]. split; [reflexivity | ].
  split; reflexivity.
Qed.

Lemma log_attendance_refused now user_name event_type latitude longitude c s :
  closed c = false ->
  schedule c = Some StatementError :: s ->
  (forall s', s <> Some ConnectionLost :: s') ->
  exists c',
    log_attendance now user_name event_type latitude longitude c = (inl false, c')
    /\ working c' = committed c /\ committed c' = committed c.
Proof.
  destruct c as [cm wk s1 s2 cl sch ab]. simpl. intros -> -> Hs.
  destruct s as [ | [[ | ] | ] s]; try (eexists; split; [reflexivity | auto]).
  exfalso. apply (Hs s). reflexivity.
Qed.

(** The daily check whose round trip meets nothing: in an aborted
    transaction its statement is refused all the same. *)
Lemma has_checked_in_today_calm now user_name c s :
  closed c = false -> schedule c = None :: s ->
  has_checked_in_today now user_name c
  = (inl (if aborted c then false
          else match events_on user_name "checkin" (DATE now)
                       (attendance (working c)) with
               | [] => false | _ :: _ => true end), after_round_trip c).
Proof.
  destruct c as [cm wk s1 s2 cl sch [ | ]]. simpl. intros -> ->.
  - reflexivity.
  - simpl. intros -> ->. run_connection. unfold select_event_on. simpl.
    destruct (events_on _ _ _ _); reflexivity.
Qed.

(** X13. [process_checkin] drops the boolean of [log_attendance]. When
    the daily check passes and the [INSERT] of the event is then refused by
    the store, the handler answers ["Check-in successful!"] although the
    ledger holds no new event. *)
Theorem checkin_success_without_event
  (now : Z) (face : detected_face) (faces : list detected_face)
  (latitude longitude : R) (w : world) (s : list (option incident)) :
  closed (db_handler w) = false ->
  schedule (db_handler w) = None :: Some StatementError :: s ->
  (forall s', s <> Some ConnectionLost :: s') ->
  working (db_handler w) = committed (db_handler w) ->
  Geofence.is_within_geofence latitude longitude = true ->
  face_name face <> "Unknown" ->
  events_on (face_name face) "checkin" (DATE now) (ledger w) = [] ->
  let out := process_checkin now (inl (face :: faces))
               (Some latitude) (Some longitude) w in
  fst out = inl checkin_ok
  /\ ledger (snd out) = ledger w
  /\ committed (db_handler (snd out)) = committed (db_handler w).
Proof.
  intros Hcl Hsch Hs Hclean Hgeo Hname Hnone out. subst out.
  apply String.eqb_neq in Hname. unfold ledger in *.
  run_handler. rewrite Hgeo. run_handler. rewrite Hname. run_handler.
  rewrite (has_checked_in_today_calm now (face_name face) (db_handler w) _ Hcl Hsch).
  rewrite Hnone.
  replace (if aborted (db_handler w) then false else false) with false
    by (destruct (aborted (db_handler w)); reflexivity).
  run_handler.
  destruct (log_attendance_refused now (face_name face) "checkin" latitude longitude
              (after_round_trip (db_handler w)) s)
    as [c' [Hlog [Hw Hc]]].
  { exact Hcl. }
  { unfold after_round_trip. simpl. rewrite Hsch. reflexivity. }
  { exact Hs. }
  rewrite Hlog. run_handler. simpl in Hw, Hc.
  split; [reflexivity | ]. rewrite Hw, Hc, Hclean. auto.
Qed.

(** X11. On a closed connection the handlers answer, they do not raise:
    inside the geofence, for a recognised face, [process_checkin] and
    [process_checkout] answer with [success = False] and the message of
    [InterfaceError], and [enroll_photo] of a named photo with a face
    answers with status code 500 and ["Error: "] followed by that message.
    The connection is left as it is. *)
Theorem closed_connection_answers
  (cosine_distance : list R -> list R -> R)
  (now : Z) (face : detected_face) (faces : list detected_face)
  (name : string) (encoding : list R)
  (latitude longitude : R) (w : world) :
  closed (db_handler w) = true ->
  Geofence.is_within_geofence latitude longitude = true ->
  face_name face <> "Unknown" ->
  strip name <> "" ->
  let failed := {| success := false; message := str InterfaceError |} in
  (fst (process_checkin now (inl (face :: faces)) (Some latitude) (Some longitude) w)
   = inl failed
   /\ db_handler (snd (process_checkin now (inl (face :: faces)) (Some latitude)
                        (Some longitude) w)) = db_handler w)
  /\ (fst (process_checkout now (inl (face :: faces)) (Some latitude)
             (Some longitude) w) = inl failed
      /\ db_handler (snd (process_checkout now (inl (face :: faces)) (Some latitude)
                           (Some longitude) w)) = db_handler w)
  /\ (fst (enroll_photo cosine_distance now name (inl tt) (inl (Some encoding)) w)
      = inl {| status_code := Some 500%Z;
               enroll_message := "Error: " ++ str InterfaceError |}
      /\ db_handler (snd (enroll_photo cosine_distance now name (inl tt)
                            (inl (Some encoding)) w)) = db_handler w).
Proof.
  intros Hcl Hgeo Hname Hstrip failed. subst failed.
  apply String.eqb_neq in Hname. apply String.eqb_neq in Hstrip.
  assert (Hn : (name =? "") = false).
  { destruct name; [discriminate | reflexivity]. }
  destruct w as [[cm wk s1 s2 cl sch ab] eff]. simpl in Hcl. subst cl.
  run_handler. rewrite Hgeo. run_handler. rewrite Hname, Hn, Hstrip.
  repeat split; reflexivity.
Qed.

Lemma select_nearest_nonempty
  (cosine_distance : list R -> list R -> R) (encoding : list R) (t : tables)
  (row : face_embedding) :
  In row (face_embeddings t) ->
  (1 - cosine_distance (fe_embedding row) encoding > 0.9)%R ->
  select_nearest cosine_distance encoding t <> [].
Proof.
  intros Hin Hc. unfold select_nearest.
  set (key := fun row => cosine_distance (fe_embedding row) encoding).
  set (l := order_by key _).
  assert (Hl : In row l).
  { apply (Permutation_in _ (Permutation_sym (order_by_perm _ key _))).
    apply filter_In. split; [exact Hin | ]. apply gtb_true_iff. exact Hc. }
  destruct l as [ | x l']; [contradiction | ]. simpl. discriminate.
Qed.

Lemma enroll_photo_healthy_state
  (cosine_distance : list R -> list R -> R)
  (now : Z) (name : string) (encoding : list R) (w : world) :
  healthy (db_handler w) ->
  strip name <> "" ->
  select_nearest cosine_distance encoding (working (db_handler w)) = [] ->
  exists w',
    enroll_photo cosine_distance now name (inl tt) (inl (Some encoding)) w
    = (inl {| status_code := None;
              enroll_message :=
                "Embedding stored successfully for " ++ strip name ++ "." |}, w')
    /\ healthy (db_handler w')
    /\ working (db_handler w')
       = fst (upsert_face_embedding
                {| fe_id := face_embeddings_id_seq (db_handler w);
                   fe_name := strip name; fe_embedding := encoding;
                   fe_created_at := now |} (working (db_handler w)))
    /\ committed (db_handler w') = working (db_handler w').
Proof.
  intros Hh Hname Hnone. apply String.eqb_neq in Hname.
  assert (Hn : (name =? "") = false).
  { destruct name; [discriminate | reflexivity]. }
  run_handler. rewrite Hn, Hname. cbn [orb]. run_handler.
  rewrite vector_search_healthy by exact Hh. rewrite Hnone. run_handler.
  destruct (store_embedding_healthy now (strip name) encoding
              (after_round_trip (db_handler w)) (healthy_after_round_trip _ Hh))
    as [c' [Hs [Hh' [Hw Hc]]]].
  rewrite Hs. run_handler. eexists. split; [reflexivity | ]. simpl.
  split; [exact Hh' | ]. split; [exact Hw | exact Hc].
Qed.

(** X15. On a healthy connection [enroll_photo] of a named photo refuses
    a face that is similar to the embedding of some identity: it answers
    with status code 400 and ["User with similar face already exists."],
    and the tables stay as they are. So, for a distance under which the
    encoding is similar to itself, an enrolment that succeeded cannot be
    repeated with the same encoding, under whatever name. *)
Theorem enroll_photo_refuses_similar_face
  (cosine_distance : list R -> list R -> R)
  (now now' : Z) (name name' : string) (encoding : list R) (w : world)
  (row : face_embedding) :
  healthy (db_handler w) ->
  strip name <> "" ->
  strip name' <> "" ->
  let similar := {| status_code := Some 400%Z;
                    enroll_message := "User with similar face already exists." |} in
  (In row (identities (db_handler w)) ->
   (1 - cosine_distance (fe_embedding row) encoding > 0.9)%R ->
   fst (enroll_photo cosine_distance now name (inl tt) (inl (Some encoding)) w) = inl similar
   /\ working (db_handler (snd (enroll_photo cosine_distance now name (inl tt)
                                  (inl (Some encoding)) w)))
      = working (db_handler w)
   /\ committed (db_handler (snd (enroll_photo cosine_distance now name (inl tt)
                                    (inl (Some encoding)) w)))
      = committed (db_handler w))
  /\ (select_nearest cosine_distance encoding (working (db_handler w)) = [] ->
      (1 - cosine_distance encoding encoding > 0.9)%R ->
      let first := enroll_photo cosine_distance now name (inl tt) (inl (Some encoding)) w in
      let second := enroll_photo cosine_distance now' name' (inl tt) (inl (Some encoding))
                      (snd first) in
      fst first
      = inl {| status_code := None;
               enroll_message :=
                 "Embedding stored successfully for " ++ strip name ++ "." |}
      /\ fst second = inl similar
      /\ working (db_handler (snd second)) = working (db_handler (snd first))).
Proof.
  intros Hh Hname Hname' similar.
  assert (Hrefuse : forall now0 name0 w0 row0,
            healthy (db_handler w0) -> strip name0 <> "" ->
            In row0 (identities (db_handler w0)) ->
            (1 - cosine_distance (fe_embedding row0) encoding > 0.9)%R ->
            fst (enroll_photo cosine_distance now0 name0 (inl tt) (inl (Some encoding)) w0)
            = inl similar
            /\ working (db_handler (snd (enroll_photo cosine_distance now0 name0 (inl tt)
                                           (inl (Some encoding)) w0)))
               = working (db_handler w0)
            /\ committed (db_handler (snd (enroll_photo cosine_distance now0 name0 (inl tt)
                                             (inl (Some encoding)) w0)))
               = committed (db_handler w0)).
  { intros now0 name0 w0 row0 Hh0 Hn0 Hin Hc. apply String.eqb_neq in Hn0.
    assert (Hn : (name0 =? "") = false).
    { destruct name0; [discriminate | reflexivity]. }
    pose proof (select_nearest_nonempty cosine_distance encoding
                  (working (db_handler w0)) row0 Hin Hc) as Hne.
    run_handler. rewrite Hn, Hn0. cbn [orb]. run_handler.
    rewrite vector_search_healthy by exact Hh0.
    destruct (select_nearest cosine_distance encoding (working (db_handler w0)));
      [congruence | ].
    run_handler. simpl. auto. }
  split.
  - intros Hin Hc. apply (Hrefuse now name w row Hh Hname Hin Hc).
  - intros Hnone Hself first second.
    destruct (enroll_photo_healthy_state cosine_distance now name encoding w
                Hh Hname Hnone) as [w1 [Hrun [Hh1 [Hw1 _]]]].
    subst second first. rewrite Hrun. simpl fst. simpl snd.
    split; [reflexivity | ].
    destruct (upsert_has_row
                {| fe_id := face_embeddings_id_seq (db_handler w);
                   fe_name := strip name; fe_embedding := encoding;
                   fe_created_at := now |}
                (face_embeddings (working (db_handler w))))
      as [row1 [Hin1 [_ He1]]].
    simpl in He1.
    assert (Hin : In row1 (identities (db_handler w1))).
    { unfold identities. rewrite Hw1. exact Hin1. }
    assert (Hc : (1 - cosine_distance (fe_embedding row1) encoding > 0.9)%R)
      by (rewrite He1; exact Hself).
    destruct (Hrefuse now' name' w1 row1 Hh1 Hname' Hin Hc) as [H1 [H2 _]].
    split; [exact H1 | exact H2].
Qed.

(** [vector_search] whose statement is refused: the empty list, and the
    transaction is left aborted. *)
Lemma vector_search_refused
  (cosine_distance : list R -> list R -> R) (encoding : list R) (c : connection)
  (s : list (option incident)) :
  closed c = false -> schedule c = Some StatementError :: s ->
  vector_search cosine_distance encoding c
  = (inl [], set_aborted true (set_schedule s c)).
Proof.
  destruct c as [cm wk s1 s2 cl sch [ | ]]; simpl; intros -> ->; reflexivity.
Qed.

(** [store_embedding] in an aborted transaction: the [INSERT] is refused,
    the rollback ends the transaction, and the answer is [False]. *)
Lemma store_embedding_aborted now name embedding c :
  closed c = false -> aborted c = true ->
  Forall (fun i => i = None) (schedule c) ->
  exists c',
    store_embedding now name embedding c = (inl false, c')
    /\ healthy c'
    /\ working c' = committed c /\ committed c' = committed c.
Proof.
  destruct c as [cm wk s1 s2 cl sch ab]. simpl. intros -> -> Hs.
  destruct sch as [ | [i | ] [ | [i' | ] sch]];
    try (inversion Hs; subst; discriminate);
    try (inversion Hs as [ | x l Hx Hl]; subst; inversion Hl; subst; discriminate);
    (eexists; split; [reflexivity | ]; simpl;
     split; [repeat split | split; reflexivity]).
  - constructor.
  - constructor.
  - inversion Hs as [ | x l Hx Hl]; subst. inversion Hl; subst. assumption.
Qed.

(** X16. A refused duplicate check makes [enroll_photo] fail. When the
    query of [vector_search] is refused by the store, [vector_search]
    returns the empty list without a rollback, so the transaction is still
    aborted when [store_embedding] sends its [INSERT]: the [INSERT] is
    refused, [store_embedding] rolls back and returns [False], and the
    handler answers with status code 400 and ["Failed to store
    embedding."]. Nothing is stored, and the connection is healthy again. *)
Theorem enroll_photo_refused_search_stores_nothing
  (cosine_distance : list R -> list R -> R)
  (now : Z) (name : string) (encoding : list R) (w : world)
  (s : list (option incident)) :
  closed (db_handler w) = false ->
  schedule (db_handler w) = Some StatementError :: s ->
  Forall (fun i => i = None) s ->
  strip name <> "" ->
  let out := enroll_photo cosine_distance now name (inl tt) (inl (Some encoding)) w in
  fst out = inl {| status_code := Some 400%Z;
                   enroll_message := "Failed to store embedding." |}
  /\ working (db_handler (snd out)) = committed (db_handler w)
  /\ committed (db_handler (snd out)) = committed (db_handler w)
  /\ healthy (db_handler (snd out))
  /\ effects (snd out)
     = (effects w ++ [FileWrite; FaceProcessing; StoreAccess; StoreAccess])%list.
Proof.
  intros Hcl Hsch Hs Hname out. subst out. apply String.eqb_neq in Hname.
  assert (Hn : (name =? "") = false).
  { destruct name; [discriminate | reflexivity]. }
  run_handler. rewrite Hn, Hname. cbn [orb]. run_handler.
  rewrite (vector_search_refused cosine_distance encoding (db_handler w) s Hcl Hsch).
  run_handler.
  destruct (store_embedding_aborted now (strip name) encoding
              (set_aborted true (set_schedule s (db_handler w))))
    as [c' [Hrun [Hh [Hw Hc]]]]; [exact Hcl | reflexivity | exact Hs | ].
  rewrite Hrun. run_handler.
  split; [reflexivity | ]. split; [exact Hw | ]. split; [exact Hc | ].
  split; [exact Hh | ]. rewrite <- !app_assoc. reflexivity.
Qed.

End HandlerEdges.

(** ** Names of white space *)

Section StripFacts.

Import Py FaceVector Main Props.
Local Open Scope string_scope.

Lemma lstrip_empty_iff (s : string) :
  lstrip s = "" <-> forallb isspace (list_ascii_of_string s) = true.
Proof.
  induction s as [ | c s IH]; simpl.
  - split; reflexivity.
  - destruct (isspace c); simpl.
    + exact IH.
    + split; discriminate.
Qed.

Lemma reverse_empty_iff (s : string) : reverse s = "" <-> s = "".
Proof.
  unfold reverse. split.
  - intros H. apply (f_equal list_ascii_of_string) in H.
    rewrite list_ascii_of_string_of_list_ascii in H. simpl in H.
    apply (f_equal (@rev ascii)) in H. rewrite rev_involutive in H. simpl in H.
    apply (f_equal string_of_list_ascii) in H.
    rewrite string_of_list_ascii_of_string in H. exact H.
  - intros ->. reflexivity.
Qed.

Lemma forallb_rev {A : Type} (f : A -> bool) (l : list A) :
  forallb f (rev l) = forallb f l.
Proof.
  induction l as [ | x l IH]; simpl; [reflexivity | ].
  rewrite forallb_app, IH. simpl. rewrite andb_true_r. apply andb_comm.
Qed.

Lemma rstrip_empty_iff (s : string) :
  rstrip s = "" <-> forallb isspace (list_ascii_of_string s) = true.
Proof.
  unfold rstrip. rewrite reverse_empty_iff, lstrip_empty_iff.
  unfold reverse. rewrite list_ascii_of_string_of_list_ascii, forallb_rev.
  reflexivity.
Qed.

Lemma lstrip_suffix (s : string) :
  exists spaces,
    forallb isspace spaces = true
    /\ list_ascii_of_string s = (spaces ++ list_ascii_of_string (lstrip s))%list.
Proof.
  induction s as [ | c s IH]; simpl.
  - exists []. split; reflexivity.
  - destruct (isspace c) eqn:E.
    + destruct IH as [spaces [H1 H2]]. exists (c :: spaces). simpl.
      rewrite E, H1, H2. split; reflexivity.
    + exists []. split; reflexivity.
Qed.

Lemma strip_empty_iff (s : string) :
  strip s = "" <-> forallb isspace (list_ascii_of_string s) = true.
Proof.
  unfold strip. rewrite rstrip_empty_iff.
  destruct (lstrip_suffix s) as [spaces [H1 H2]].
  rewrite H2, forallb_app, H1. simpl. reflexivity.
Qed.

(** X14. [enroll_photo] answers a name that consists of white space only
    (the empty name among them) with status code 400 and ["Name cannot be
    empty"], before anything else: no file is written, and the face
    processor and the store are not called. For any other name the handler
    first saves the photo; when saving raises, it answers with status code
    500 and the message of the exception, and the face processor and the
    store are not called. *)
Theorem enroll_photo_blank_name
  (cosine_distance : list R -> list R -> R)
  (now : Z) (name : string) (saved : unit + exn) (photo : option (list R) + exn)
  (w : world) :
  let out := enroll_photo cosine_distance now name saved photo w in
  (forallb isspace (list_ascii_of_string name) = true ->
   out = (inl {| status_code := Some 400%Z;
                 enroll_message := "Name cannot be empty" |}, w))
  /\ (forallb isspace (list_ascii_of_string name) = false ->
      (exists rest, effects (snd out) = (effects w ++ FileWrite :: rest)%list)
      /\ (forall e, saved = inr e ->
            out = (inl {| status_code := Some 500%Z;
                          enroll_message := "Error: " ++ str e |},
                   {| db_handler := db_handler w;
                      effects := (effects w ++ [FileWrite])%list |}))).
Proof.
  cbv zeta. split.
  - intros H. apply strip_empty_iff in H. run_handler.
    rewrite H. rewrite orb_true_r. reflexivity.
  - intros H.
    assert (Hs : (strip name =? "") = false).
    { apply String.eqb_neq. intros Hs. apply strip_empty_iff in Hs. congruence. }
    assert (Hn : (name =? "") = false).
    { destruct name; [discriminate | reflexivity]. }
    run_handler. rewrite Hn, Hs. cbn [orb]. split.
    + destruct saved as [[] | e]; run_handler; [ | exists []; reflexivity].
      destruct photo as [[encoding | ] | e]; run_handler;
        try (exists [FaceProcessing]; rewrite <- app_assoc; reflexivity).
      destruct (vector_search cosine_distance encoding (db_handler w))
        as [[[ | similar similar_embeddings] | e] c1]; run_handler;
        try (exists [FaceProcessing; StoreAccess]; rewrite <- !app_assoc;
             reflexivity).
      destruct (store_embedding now (strip name) encoding c1) as [[[ | ] | e] c2];
        run_handler; exists [FaceProcessing; StoreAccess; StoreAccess];
        rewrite <- !app_assoc; reflexivity.
    + intros e ->. reflexivity.
Qed.

End StripFacts.

(** ** The frames of a video *)

Section VideoFacts.

Import Py Main Props Routes.
Local Open Scope py_scope.
Local Open Scope string_scope.
Local Open Scope Z_scope.

Lemma sampled_skip (fr : list detected_face + exn)
  (video : list (list detected_face + exn)) (n : Z) (new : list detection) :
  0 <= n ->
  (n mod 5 <> 0 \/ fr = inl []) ->
  sampled video (n + 1) new -> sampled (fr :: video) n new.
Proof.
  intros Hn Hfr [Hall [Hs [Hc Hlen]]]. split; [ | split; [ | split]].
  - eapply Forall_impl; [ | exact Hall]. simpl.
    intros d [H1 [H2 [H3 H4]]]. split; [simpl List.length; lia | ].
    split; [exact H2 | ]. split; [exact H3 | ].
    replace (Z.to_nat (frame d - n)) with (S (Z.to_nat (frame d - (n + 1)))) by lia.
    exact H4.
  - exact Hs.
  - intros [ | k] fs Hk Hnth Hne.
    + rewrite Z.add_0_r in Hk. simpl in Hnth. destruct Hfr as [Hfr | Hfr].
      * contradiction.
      * subst fr. injection Hnth as <-. congruence.
    + simpl in Hnth.
      replace (n + Z.of_nat (S k)) with (n + 1 + Z.of_nat k) in * by lia.
      apply Hc; assumption.
  - simpl List.length. Z.to_euclidean_division_equations. lia.
Qed.

Lemma sampled_take (face : detected_face) (faces : list detected_face)
  (video : list (list detected_face + exn)) (n : Z) (new : list detection) :
  0 <= n -> n mod 5 = 0 ->
  sampled video (n + 1) new ->
  sampled (inl (face :: faces) :: video) n
    ({| frame := n; detected_faces := face :: faces |} :: new).
Proof.
  intros Hn Emod [Hall [Hs [Hc Hlen]]]. split; [ | split; [ | split]].
  - constructor.
    + simpl. split; [simpl List.length; lia | ]. split; [exact Emod | ].
      split; [discriminate | ]. rewrite Z.sub_diag. reflexivity.
    + eapply Forall_impl; [ | exact Hall]. simpl.
      intros d [H1 [H2 [H3 H4]]]. split; [simpl List.length; lia | ].
      split; [exact H2 | ]. split; [exact H3 | ].
      replace (Z.to_nat (frame d - n)) with (S (Z.to_nat (frame d - (n + 1))))
        by lia. exact H4.
  - constructor; [exact Hs | ].
    eapply Forall_impl; [ | exact Hall]. simpl. intros d [H1 _]. lia.
  - intros [ | k] fs Hk Hnth Hne.
    + simpl in Hnth. injection Hnth as <-. left.
      rewrite Z.add_0_r. reflexivity.
    + simpl in Hnth. right.
      replace (n + Z.of_nat (S k)) with (n + 1 + Z.of_nat k) in * by lia.
      apply Hc; assumption.
  - simpl List.length. Z.to_euclidean_division_equations. lia.
Qed.

Lemma read_frames_spec (video : list (list detected_face + exn)) :
  forall (n : Z) (results : list detection) (w : world),
    0 <= n ->
    exists r w',
      read_frames video n results w = (r, w')
      /\ db_handler w' = db_handler w
      /\ match r with
         | inl (total, out) =>
             total = n + Z.of_nat (List.length video)
             /\ exists new, out = (results ++ new)%list /\ sampled video n new
         | inr e =>
             exists k, (n + Z.of_nat k) mod 5 = 0 /\ nth_error video k = Some (inr e)
         end.
Proof.
  induction video as [ | fr video IH]; intros n results w Hn.
  - exists (inl (n, results)), w. split; [reflexivity | ]. split; [reflexivity | ].
    split; [simpl; lia | ]. exists []. rewrite app_nil_r. split; [reflexivity | ].
    split; [constructor | ]. split; [constructor | ].
    split; [intros [ | k] faces _ H; discriminate | ].
    simpl. rewrite Z.add_0_r. lia.
  - cbn [read_frames]. unfold bind, process_video_frame, call_face_processor, ret.
    destruct (n mod 5 =? 0) eqn:Emod.
    + apply Z.eqb_eq in Emod. destruct fr as [[ | face faces] | e].
      * destruct (IH (n + 1) results
                    {| db_handler := db_handler w;
                       effects := (effects w ++ [FaceProcessing])%list |}
                    ltac:(lia)) as [r [w' [Hrun [Hdb Hr]]]].
        rewrite Hrun. exists r, w'. split; [reflexivity | ]. split; [exact Hdb | ].
        destruct r as [[total out] | e].
        -- destruct Hr as [Ht [new [Ho Hsam]]]. split; [simpl List.length; lia | ].
           exists new. split; [exact Ho | ]. apply sampled_skip; auto.
        -- destruct Hr as [k [Hk Hnth]]. exists (S k). split; [ | exact Hnth].
           replace (n + Z.of_nat (S k)) with (n + 1 + Z.of_nat k) by lia. exact Hk.
      * destruct (IH (n + 1)
                    (results ++ [ {| frame := n; detected_faces := face :: faces |} ])%list
                    {| db_handler := db_handler w;
                       effects := (effects w ++ [FaceProcessing])%list |}
                    ltac:(lia)) as [r [w' [Hrun [Hdb Hr]]]].
        rewrite Hrun. exists r, w'. split; [reflexivity | ]. split; [exact Hdb | ].
        destruct r as [[total out] | e].
        -- destruct Hr as [Ht [new [Ho Hsam]]]. split; [simpl List.length; lia | ].
           exists ({| frame := n; detected_faces := face :: faces |} :: new).
           split; [rewrite Ho, <- app_assoc; reflexivity | ].
           apply sampled_take; auto.
        -- destruct Hr as [k [Hk Hnth]]. exists (S k). split; [ | exact Hnth].
           replace (n + Z.of_nat (S k)) with (n + 1 + Z.of_nat k) by lia. exact Hk.
      * eexists. eexists. split; [reflexivity | ]. split; [reflexivity | ].
        exists 0%nat. split; [rewrite Z.add_0_r; exact Emod | reflexivity].
    + apply Z.eqb_neq in Emod.
      destruct (IH (n + 1) results w ltac:(lia)) as [r [w' [Hrun [Hdb Hr]]]].
      rewrite Hrun. exists r, w'. split; [reflexivity | ]. split; [exact Hdb | ].
      destruct r as [[total out] | e].
      * destruct Hr as [Ht [new [Ho Hsam]]]. split; [simpl List.length; lia | ].
        exists new. split; [exact Ho | ]. apply sampled_skip; auto.
      * destruct Hr as [k [Hk Hnth]]. exists (S k). split; [ | exact Hnth].
        replace (n + Z.of_nat (S k)) with (n + 1 + Z.of_nat k) by lia. exact Hk.
Qed.

(** X17. [process_video] never touches the store. When it answers,
    ["total_frames"] is the number of frames of the video,
    ["processed_frames"] is the number of detections, at most one for every
    fifth frame; the detections are in strictly increasing order of their
    frame; each of them belongs to a frame of the video whose number is a
    multiple of 5 and carries the non-empty list of faces that the face
    processor found in that frame; and every such frame has its detection.
    When it raises, the exception is the one that the face processor raised
    on a frame whose number is a multiple of 5. *)
Theorem process_video_samples (video : list (list detected_face + exn)) (w : world) :
  db_handler (snd (process_video video w)) = db_handler w
  /\ match fst (process_video video w) with
     | inl summary =>
         total_frames summary = Z.of_nat (List.length video)
         /\ processed_frames summary = List.length (detections summary)
         /\ Z.of_nat (processed_frames summary) <= (total_frames summary + 4) / 5
         /\ StronglySorted (fun d1 d2 => frame d1 < frame d2) (detections summary)
         /\ (forall d, In d (detections summary) ->
               0 <= frame d < total_frames summary
               /\ frame d mod 5 = 0
               /\ detected_faces d <> []
               /\ nth_error video (Z.to_nat (frame d)) = Some (inl (detected_faces d)))
         /\ (forall k faces,
               Z.of_nat k mod 5 = 0 ->
               nth_error video k = Some (inl faces) -> faces <> [] ->
               In {| frame := Z.of_nat k; detected_faces := faces |}
                  (detections summary))
     | inr e =>
         exists k, Z.of_nat k mod 5 = 0 /\ nth_error video k = Some (inr e)
     end.
Proof.
  unfold process_video, bind, ret.
  destruct (read_frames_spec video 0 [] w ltac:(lia)) as [r [w' [Hrun [Hdb Hr]]]].
  rewrite Hrun. destruct r as [[total out] | e]; simpl.
  - split; [exact Hdb | ].
    destruct Hr as [Ht [new [Ho [Hall [Hs [Hc Hlen]]]]]]. simpl in Ho. subst out.
    split; [lia | ]. split; [reflexivity | ].
    split; [subst total; rewrite Z.add_0_l in *; change ((0 + 4) / 5) with 0 in Hlen; lia | ].
    split; [exact Hs | ]. split.
    + intros d Hin. rewrite Forall_forall in Hall.
      destruct (Hall d Hin) as [H1 [H2 [H3 H4]]].
      rewrite Z.sub_0_r in H4. repeat split; auto; lia.
    + intros k faces Hk Hnth Hne. apply (Hc k faces); auto.
  - split; [exact Hdb | ]. destruct Hr as [k [Hk Hnth]]. exists k. auto.
Qed.

End VideoFacts.

(** ** The other routes *)

Section RouteFacts.

Import Py FaceVector Main Props.
Local Open Scope py_scope.
Local Open Scope string_scope.


(** X18. The route [delete_user] calls the store once and always
    answers. It answers with status ["success"] only when the name had a row,
    and then no row and no attendance event of the name is left and the
    deletion is committed. It answers ["User '...' not found"] when the name
    had no row, and also when the [DELETE] was refused and rolled back. It
    answers ["Error deleting user: ..."] only with the connection closed. On
    a healthy connection the answer tells whether the name had a row. *)
Theorem delete_user_route (name : string) (w : world) :
  let out := Routes.delete_user name w in
  let c := db_handler w in
  let c' := db_handler (snd out) in
  effects (snd out) = (effects w ++ [StoreAccess])%list
  /\ (exists answer,
        fst out = inl answer
        /\ ((answer = {| Routes.status := "success";
                         Routes.status_message
                         := "User '" ++ name ++ "' deleted successfully" |}
             /\ rows_named name (identities c) <> []
             /\ rows_named name (identities c') = []
             /\ events_of name (attendance (working c')) = []
             /\ committed c' = working c')
            \/ (answer = {| Routes.status := "error";
                            Routes.status_message
                            := "User '" ++ name ++ "' not found" |}
                /\ (rows_named name (identities c) = []
                    \/ (working c' = committed c /\ committed c' = committed c)))
            \/ (exists e,
                  answer = {| Routes.status := "error";
                              Routes.status_message
                              := "Error deleting user: " ++ str e |}
                  /\ closed c' = true /\ committed c' = committed c)))
  /\ (healthy c ->
      fst out
      = inl (match rows_named name (identities c) with
             | [] => {| Routes.status := "error";
                        Routes.status_message := "User '" ++ name ++ "' not found" |}
             | _ :: _ => {| Routes.status := "success";
                            Routes.status_message
                            := "User '" ++ name ++ "' deleted successfully" |}
             end)).
Proof.
  cbv zeta. unfold Routes.delete_user, try_except, bind, call_db, ret.
  pose proof (delete_user_outcome name (db_handler w)) as Hout.
  pose proof (delete_user_healthy name (db_handler w)) as Hh.
  cbv zeta in Hout.
  destruct (delete_user name (db_handler w)) as [[[ | ] | e] c'] eqn:E;
    cbn [fst snd db_handler effects] in *.
  - split; [reflexivity | ]. split.
    + eexists. split; [reflexivity | ]. left.
      destruct Hout as [H1 [H2 [H3 H4]]].
      split; [reflexivity | ]. split; [exact H1 | ].
      split; [ | split; [ | exact H3]].
      * unfold identities, rows_named. rewrite H2. simpl. apply filter_negb_filter.
      * rewrite H2. simpl. apply filter_negb_filter.
    + intros Hc. specialize (Hh Hc). injection Hh as Hh.
      destruct (rows_named name (identities (db_handler w)));
        [discriminate | reflexivity].
  - split; [reflexivity | ]. split.
    + eexists. split; [reflexivity | ]. right. left. split; [reflexivity | ].
      destruct Hout as [[H1 _] | H]; [left; exact H1 | right; exact H].
    + intros Hc. specialize (Hh Hc). injection Hh as Hh.
      destruct (rows_named name (identities (db_handler w)));
        [reflexivity | discriminate].
  - split; [reflexivity | ]. split.
    + eexists. split; [reflexivity | ]. right. right. exists e.
      split; [reflexivity | exact Hout].
    + intros Hc. specialize (Hh Hc). discriminate.
Qed.

(** X19. The route [get_user_report] calls the store once and leaves the
    tables as they are. It answers either with status ["success"], the name
    of the user and a non-empty report, which is the answer of
    [get_user_attendance_report], or with ["No attendance records found for
    user '...'"]; it never answers ["Error retrieving attendance report:
    ..."]. On a healthy connection it answers with success exactly when the
    user has an attendance event; when the cursor or the query raises it
    answers that no records were found. *)
Theorem user_report_route (user_name : string) (w : world) :
  let out := Routes.get_user_report user_name w in
  let c := db_handler w in
  working (db_handler (snd out)) = working c
  /\ committed (db_handler (snd out)) = committed c
  /\ effects (snd out) = (effects w ++ [StoreAccess])%list
  /\ ((exists report,
         fst out = inl (Routes.ReportSuccess user_name report)
         /\ report <> []
         /\ fst (get_user_attendance_report user_name c) = inl report)
      \/ fst out
         = inl (Routes.ReportError
                  ("No attendance records found for user '" ++ user_name ++ "'")))
  /\ (healthy c ->
      ((exists report, fst out = inl (Routes.ReportSuccess user_name report))
       <-> events_of user_name (attendance (working c)) <> []))
  /\ (query_raises c ->
      fst out
      = inl (Routes.ReportError
               ("No attendance records found for user '" ++ user_name ++ "'"))).
Proof.
  cbv zeta. unfold Routes.get_user_report, try_except, bind, call_db, ret.
  destruct (read_outcome (select_daily_attendance user_name) (db_handler w))
    as [Hw [Hc [Hr [Hh Hq]]]].
  fold (get_user_attendance_report user_name) in Hw, Hc, Hr, Hh, Hq.
  destruct (select_daily_attendance_spec user_name (working (db_handler w)))
    as [_ [Hs2 Hs3]].
  destruct (get_user_attendance_report user_name (db_handler w))
    as [[report | e] c'] eqn:E; cbn [fst snd db_handler effects] in *.
  - destruct report as [ | row report]; cbn [fst snd db_handler effects].
    + split; [exact Hw | ]. split; [exact Hc | ]. split; [reflexivity | ].
      split; [right; reflexivity | ].
      split; [ | reflexivity].
      intros Hhealthy. specialize (Hh Hhealthy). injection Hh as Hh. split.
      * intros [report H]. discriminate.
      * intros Hne. exfalso. apply Hne.
        destruct (events_of user_name (attendance (working (db_handler w))))
          as [ | ev events] eqn:Eev; [reflexivity | ].
        destruct (Hs3 ev) as [row [Hin _]].
        { left. reflexivity. }
        rewrite <- Hh in Hin. contradiction.
    + split; [exact Hw | ]. split; [exact Hc | ]. split; [reflexivity | ]. split.
      * left. exists (row :: report). split; [reflexivity | ].
        split; [discriminate | reflexivity].
      * split.
        -- intros Hhealthy. split.
           ++ intros _ Hnil.
              destruct Hr as [Hr | Hr]; [ | discriminate].
              injection Hr as Hr.
              destruct (Hs2 row) as [[ev [Hin _]] _].
              { rewrite <- Hr. left. reflexivity. }
              rewrite Hnil in Hin. contradiction.
           ++ intros _. eexists. reflexivity.
        -- intros Hraise. specialize (Hq Hraise). discriminate.
  - destruct Hr; discriminate.
Qed.


End RouteFacts.

(** ** Examples *)

Section Examples.

Import Py FaceVector Main Props.
Local Open Scope string_scope.

Lemma alice_world_healthy : healthy (db_handler (alice_world [])).
Proof. repeat split; constructor. Qed.

Lemma alike_self (a b : list R) : (1 - all_alike a b > 0.9)%R.
Proof. unfold all_alike. lra. Qed.


Lemma store_embedding_then_lookup_witness :
  embedding_of "bob"
    (identities (snd (store_embedding 10 "bob" [0%R; 1%R]
                        (db_handler (alice_world [])))))
  = Some [0%R; 1%R]
  /\ embedding_of "alice"
       (identities (snd (store_embedding 10 "bob" [0%R; 1%R]
                           (db_handler (alice_world [])))))
     = embedding_of "alice" (identities (db_handler (alice_world []))).
Proof.
  destruct (store_embedding_then_lookup 10 20 "bob" "alice" [0%R; 1%R]
              (db_handler (alice_world [])) alice_world_healthy)
    as [_ [H1 [H2 _]]].
  split; [exact H1 | ]. apply H2. discriminate.
Defined.

Lemma stored_face_is_found_witness :
  exists results,
    fst (vector_search all_alike [0%R; 1%R]
           (snd (store_embedding 10 "bob" [0%R; 1%R]
                   (db_handler (alice_world []))))) = inl results
    /\ results <> [].
Proof.
  destruct (stored_face_is_found all_alike 10 "bob" [0%R; 1%R]
              (db_handler (alice_world [])) alice_world_healthy (alike_self _ _))
    as [results [H1 [H2 _]]].
  exists results. split; [exact H1 | exact H2].
Defined.

Lemma bob_and_carol_differ : NoDup (map data_name bob_and_carol).
Proof.
  simpl. constructor.
  - intros [H | []]. discriminate.
  - constructor; [intros [] | constructor].
Qed.

Lemma store_multiple_embeddings_then_lookup_witness :
  fst (store_multiple_embeddings 10 bob_and_carol (db_handler (alice_world [])))
  = inl true
  /\ embedding_of "carol"
       (identities (snd (store_multiple_embeddings 10 bob_and_carol
                           (db_handler (alice_world [])))))
     = Some [1%R; 1%R].
Proof.
  destruct (store_multiple_embeddings_then_lookup 10 bob_and_carol
              (db_handler (alice_world [])) alice_world_healthy
              bob_and_carol_differ) as [H1 [_ [_ [H2 _]]]].
  split; [exact H1 | ].
  apply (H2 {| data_name := "carol"; data_embedding := [1%R; 1%R] |}).
  right. left. reflexivity.
Defined.

Lemma closed_connection_answers_witness :
  fst (process_checkin 0 (inl [alice]) (Some office_latitude)
         (Some office_longitude) closed_world)
  = inl {| success := false; message := str InterfaceError |}
  /\ fst (enroll_photo all_unlike 0 "bob" (inl tt) (inl (Some [0%R; 1%R])) closed_world)
     = inl {| status_code := Some 500%Z;
              enroll_message := "Error: " ++ str InterfaceError |}.
Proof.
  assert (Hn : face_name alice <> "Unknown") by discriminate.
  assert (Hs : strip "bob" <> "") by discriminate.
  destruct (closed_connection_answers all_unlike 0 alice [] "bob" [0%R; 1%R]
              office_latitude office_longitude closed_world eq_refl
              office_within_geofence Hn Hs) as [[H1 _] [_ [H3 _]]].
  split; [exact H1 | exact H3].
Defined.

Lemma face_not_recognized_witness :
  fst (process_checkin 0 (inl [ {| face_name := "Unknown" |} ])
         (Some office_latitude) (Some office_longitude) (alice_world []))
  = inl {| success := false; message := "Face not recognized." |}
  /\ ledger (snd (process_checkin 0 (inl [ {| face_name := "Unknown" |} ])
                    (Some office_latitude) (Some office_longitude)
                    (alice_world [])))
     = ledger (alice_world []).
Proof.
  destruct (face_not_recognized 0 {| face_name := "Unknown" |} [] []
              OperationalError office_latitude office_longitude (alice_world [])
              office_within_geofence) as [_ [_ [H _]]].
  destruct (H eq_refl) as [H1 _]. rewrite H1. split; reflexivity.
Defined.

Lemma checkin_success_without_event_witness :
  fst (process_checkin 86400 (inl [alice]) (Some office_latitude)
         (Some office_longitude) (alice_world [None; Some StatementError]))
  = inl checkin_ok
  /\ ledger (snd (process_checkin 86400 (inl [alice]) (Some office_latitude)
                    (Some office_longitude)
                    (alice_world [None; Some StatementError])))
     = ledger (alice_world [None; Some StatementError]).
Proof.
  assert (Hn : face_name alice <> "Unknown") by discriminate.
  assert (Hs : forall s' : list (option incident), [] <> Some ConnectionLost :: s')
    by discriminate.
  destruct (checkin_success_without_event 86400 alice [] office_latitude
              office_longitude (alice_world [None; Some StatementError]) []
              eq_refl eq_refl Hs eq_refl office_within_geofence Hn eq_refl)
    as [H1 [H2 _]].
  split; [exact H1 | exact H2].
Defined.

Lemma enroll_photo_refuses_similar_face_witness :
  fst (enroll_photo all_alike 10 "bob" (inl tt) (inl (Some [0%R; 1%R])) (alice_world []))
  = inl {| status_code := Some 400%Z;
           enroll_message := "User with similar face already exists." |}.
Proof.
  assert (Hs : strip "bob" <> "") by discriminate.
  destruct (enroll_photo_refuses_similar_face all_alike 10 20 "bob" "bob"
              [0%R; 1%R] (alice_world []) (alice_row [1%R; 0%R])
              alice_world_healthy Hs Hs) as [H _].
  destruct (H (or_introl eq_refl) (alike_self _ _)) as [H1 _]. exact H1.
Defined.

Lemma enroll_photo_refused_search_stores_nothing_witness :
  fst (enroll_photo all_unlike 10 "bob" (inl tt) (inl (Some [0%R; 1%R]))
         (alice_world [Some StatementError]))
  = inl {| status_code := Some 400%Z;
           enroll_message := "Failed to store embedding." |}
  /\ identities
       (db_handler
          (snd (enroll_photo all_unlike 10 "bob" (inl tt) (inl (Some [0%R; 1%R]))
                  (alice_world [Some StatementError]))))
     = identities (db_handler (alice_world [Some StatementError])).
Proof.
  assert (Hs : strip "bob" <> "") by discriminate.
  destruct (enroll_photo_refused_search_stores_nothing all_unlike 10 "bob"
              [0%R; 1%R] (alice_world [Some StatementError]) [] eq_refl eq_refl
              (Forall_nil _) Hs) as [H1 [H2 _]].
  split; [exact H1 | ]. unfold identities. rewrite H2. reflexivity.
Defined.


Lemma delete_user_forgets_witness :
  fst (retrieve_attendance "alice"
         (snd (delete_user "alice" (db_handler (alice_world []))))) = inl []
  /\ fst (has_checked_in_today 0 "alice"
            (snd (delete_user "alice" (db_handler (alice_world []))))) = inl false.
Proof.
  assert (Hk : rows_named "alice" (identities (db_handler (alice_world []))) <> [])
    by discriminate.
  destruct (delete_user_forgets all_alike [1%R; 0%R] 0 "alice" "bob"
              (db_handler (alice_world [])) alice_world_healthy Hk)
    as [_ [_ [H1 [_ [H2 _]]]]].
  split; [exact H2 | exact H1].
Defined.

End Examples.
